(** * glirc-otr: the OTR extension of the glirc IRC client

    A shallow embedding of [otr-extension/glirc-otr.c] and the properties of
    its entry points and engine callbacks.

    The extension is a shim between two collaborators that are not part of
    it: the host (glirc, reached through [glirc_send_message], [glirc_print],
    [glirc_inject_chat] and [glirc_my_nick]) and the OTR engine (libotr,
    reached through [otrl_message_receiving], [otrl_message_sending] and the
    key and user-state functions).  Both are parameters of the development
    (class [Env]); every call the extension makes into either of them is
    recorded in a trace, and the blocks the extension and the engine hand to
    each other live in an explicit heap. *)

From Stdlib Require Import ZArith Ascii String List Bool Lia.
From stdpp Require Import base list.

Import ListNotations.
Local Open Scope string_scope.
Local Open Scope Z_scope.

(** ** C strings *)

Module CString.

Definition NUL : ascii := "000"%char.
Definition newline : ascii := "010"%char.
Definition space : ascii := " "%char.

(** A [char] buffer is the sequence of its bytes; the terminating NUL of a C
    string stands right after the last byte of the sequence when no byte of
    the sequence is NUL.  Reading the byte a cursor points at: *)
Definition deref (buf : string) : ascii :=
  match buf with
  | EmptyString => NUL
  | String c _ => c
  end.

Definition advance (buf : string) : string :=
  match buf with
  | EmptyString => EmptyString
  | String _ rest => rest
  end.

(** The C string a buffer holds: its bytes before the first NUL. *)
Fixpoint c_str (buf : string) : string :=
  match buf with
  | EmptyString => EmptyString
  | String c rest => if Ascii.eqb c NUL then EmptyString else String c (c_str rest)
  end.

(** [strlen]: counts bytes up to the terminator. *)
Fixpoint strlen (buf : string) : nat :=
  match buf with
  | EmptyString => O
  | String c rest => if Ascii.eqb c NUL then O else S (strlen rest)
  end.

(** [strndup(s, n)]: a copy of at most [n] bytes of [s], stopping at a NUL. *)
Fixpoint strndup (s : string) (n : nat) : string :=
  match n, s with
  | O, _ => EmptyString
  | S _, EmptyString => EmptyString
  | S n', String c rest =>
      if Ascii.eqb c NUL then EmptyString else String c (strndup rest n')
  end.

(** [strdup(s)]: a copy of the C string at [s]. *)
Definition strdup (s : string) : string := c_str s.

(** [strncmp(s1, s2, n)]: compares at most [n] bytes, as unsigned chars,
    and stops after a NUL. *)
Fixpoint strncmp (s1 s2 : string) (n : nat) : Z :=
  match n with
  | O => 0
  | S n' =>
      let c1 := deref s1 in
      let c2 := deref s2 in
      if negb (Ascii.eqb c1 c2)
      then Z.of_nat (nat_of_ascii c1) - Z.of_nat (nat_of_ascii c2)
      else if Ascii.eqb c1 NUL then 0
      else strncmp (advance s1) (advance s2) n'
  end.

(** [strcat(dst, src)] on the C strings the two buffers hold. *)
Definition strcat (dst src : string) : string := c_str dst ++ c_str src.

(** The loop of [op_inject]: the cursor starts at [message1] and moves on
    byte by byte while the byte under it is not NUL; a byte that is a newline
    is overwritten with a space.  The buffer is rewritten in place up to its
    terminator; what follows a NUL is not visited. *)
Fixpoint scrub_loop (cursor : string) : string :=
  match cursor with
  | EmptyString => EmptyString
  | String c rest =>
      if Ascii.eqb c NUL then cursor
      else String (if Ascii.eqb c newline then space else c) (scrub_loop rest)
  end.

(** Number of occurrences of a byte. *)
Fixpoint count_byte (b : ascii) (s : string) : nat :=
  match s with
  | EmptyString => O
  | String c rest => (if Ascii.eqb c b then 1 else 0)%nat + count_byte b rest
  end.

(** Replacing every newline by a space, byte by byte (the specification the
    loop is compared with). *)
Definition newline_to_space (c : ascii) : ascii :=
  if Ascii.eqb c newline then space else c.

Fixpoint map_bytes (f : ascii -> ascii) (s : string) : string :=
  match s with
  | EmptyString => EmptyString
  | String c rest => String (f c) (map_bytes f rest)
  end.

End CString.
Import CString.

(** ** The host interface (glirc-api.h) *)

(** [struct glirc_string { const char *str; size_t len; }]: a counted string,
    modelled by the [len] bytes at [str]. *)
Definition glirc_string := string.
Definition str (s : glirc_string) : string := s.
Definition len (s : glirc_string) : nat := String.length s.

(** [{ .str = buf, .len = n }] *)
Definition mk_glirc_string (buf : string) (n : nat) : glirc_string :=
  substring 0 n buf.

(** [struct glirc_message], the fields the extension reads or sets. *)
Record glirc_message := {
  network : glirc_string;
  prefix_nick : glirc_string;
  command : glirc_string;
  params : list glirc_string
}.
Definition params_n (m : glirc_message) : nat := length (params m).

(** [struct glirc_chat] *)
Record glirc_chat := {
  chat_network : glirc_string;
  chat_target : glirc_string;
  chat_message : glirc_string
}.

Inductive process_result := PASS_MESSAGE | DROP_MESSAGE.
Inductive message_code := NORMAL_MESSAGE | ERROR_MESSAGE.

(** ** The engine interface (libotr) *)

Definition gcry_error_t := Z.
Definition OtrlPolicy := Z.
Definition OtrlMessageEvent := Z.
Definition otrl_instag_t := Z.

Inductive OtrlFragmentPolicy :=
| OTRL_FRAGMENT_SEND_SKIP
| OTRL_FRAGMENT_SEND_ALL
| OTRL_FRAGMENT_SEND_ALL_BUT_FIRST
| OTRL_FRAGMENT_SEND_ALL_BUT_LAST.

Record OtrlTLV := { tlv_type : Z; tlv_data : string }.

(** The key of a conversation, which is all the callbacks could look at. *)
Record ConnContext := {
  ctx_accountname : string;
  ctx_protocol : string;
  ctx_username : string
}.

(** The callbacks the engine may invoke while it processes one message: the
    six members the extension sets in its [OtrlMessageAppOps] table, each
    with the type of the value handed back to the engine. *)
Inductive upcall : Type -> Type :=
| call_policy (context : ConnContext) : upcall OtrlPolicy
| call_create_privkey (accountname protocol : string) : upcall unit
| call_is_logged_in (accountname protocol recipient : string) : upcall Z
| call_inject_message (accountname protocol recipient message : string) : upcall unit
| call_max_message_size (context : ConnContext) : upcall Z
| call_handle_msg_event (msg_event : OtrlMessageEvent) (context : ConnContext)
    (message : option string) (err : gcry_error_t) : upcall unit.

(** One run of the engine on one message: it returns, or it invokes a
    callback and goes on with the callback's answer. *)
Inductive engine (R : Type) : Type :=
| Done (r : R)
| Upcall {A : Type} (c : upcall A) (k : A -> engine R).
Arguments Done {R} r.
Arguments Upcall {R A} c k.

(** What [otrl_message_receiving] hands back: its return value, the
    plaintext written to [*newmessagep] (if any) and the chain written to
    [*tlvsp] (the empty chain is the null pointer). *)
Record receiving := {
  recv_ret : Z;
  recv_newmessage : option string;
  recv_tlvs : list OtrlTLV
}.

(** What [otrl_message_sending] hands back: its error code and the message
    written to [*messagep] (if any). *)
Record sending := {
  send_err : gcry_error_t;
  send_newmsg : option string
}.

(** Everything the extension is linked against.  A member [f_impl] is what
    the library function or macro [f] does; the extension calls it through
    the wrapper [f] defined below, which records the call. *)
Class Env := {
  glirc : Type;
  OtrlUserState : Type;
  (** the state of the engine (user states, conversations, key files) and of
      the host (its connections) *)
  world : Type;
  PATH_MAX : nat;
  OTRL_POLICY_DEFAULT : OtrlPolicy;
  OTRL_INSTAG_BEST : otrl_instag_t;
  (** [dirname_r(path, buf)]: the directory written to [buf], or [None] when
      it returns NULL and leaves [buf] alone *)
  dirname_r_impl : string -> option string;
  (** the [OTRL_INIT] macro: [None] when it ends the process *)
  OTRL_INIT_impl : world -> option world;
  otrl_userstate_create_impl : world -> OtrlUserState * world;
  otrl_userstate_free_impl : OtrlUserState -> world -> world;
  otrl_privkey_generate_impl :
    OtrlUserState -> string -> string -> string -> world -> gcry_error_t * world;
  otrl_message_receiving_impl :
    OtrlUserState -> string -> string -> string -> string ->
    world -> engine (receiving * world);
  otrl_message_sending_impl :
    OtrlUserState -> option string -> string -> string -> otrl_instag_t ->
    string -> OtrlFragmentPolicy -> world -> engine (sending * world);
  (** [glirc_my_nick]: the nick on that network, [None] for the null pointer *)
  glirc_my_nick_impl : glirc -> glirc_string -> world -> option string
}.

(** ** Memory, trace and the command monad *)

(** A heap block: a [char] buffer or a TLV chain of the engine. *)
Inductive block :=
| Chars (buf : string)
| TlvChain (chain : list OtrlTLV).

(** A heap cell keeps its address after it is released, so an address is
    never handed out twice and a second release of it is seen. *)
Inductive cell :=
| Live (b : block)
| Freed.

Definition loc := nat.
(** A pointer; [None] is the null pointer. *)
Definition ptr := option loc.

Inductive fault :=
| invalid_read
| invalid_free
| double_free
| out_of_bounds
| buffer_overflow
| process_exit.

Section Extension.
Context {env : Env}.

(** The calls into the host and into the engine, in the order they happen. *)
Inductive event :=
| ev_glirc_send_message (m : glirc_message)
| ev_glirc_print (code : message_code) (text : glirc_string)
| ev_glirc_inject_chat (net src tgt msg : glirc_string)
| ev_glirc_my_nick (net : glirc_string)
| ev_OTRL_INIT
| ev_otrl_userstate_create (us : OtrlUserState)
| ev_otrl_userstate_free (us : OtrlUserState)
| ev_otrl_privkey_generate (us : OtrlUserState) (filename accountname protocol : string)
    (err : gcry_error_t)
| ev_otrl_message_receiving (us : OtrlUserState)
    (accountname protocol sender message : string)
| ev_otrl_message_receiving_returned (ret : Z) (newmessage : option string)
    (tlvs : list OtrlTLV)
| ev_otrl_message_sending (us : OtrlUserState) (accountname : option string)
    (protocol recipient : string) (instag : otrl_instag_t) (message : string)
    (fragPolicy : OtrlFragmentPolicy)
| ev_otrl_message_sending_returned (err : gcry_error_t) (newmsg : option string).

Record state := {
  heap : list cell;
  the_world : world;
  trace : list event
}.

Inductive outcome (A : Type) :=
| Returns (a : A) (st : state)
| Faults (f : fault).
Arguments Returns {A} a st.
Arguments Faults {A} f.

Definition cmd (A : Type) := state -> outcome A.

Definition ret {A} (a : A) : cmd A := fun st => Returns a st.

Definition bind {A B} (c : cmd A) (k : A -> cmd B) : cmd B :=
  fun st =>
    match c st with
    | Returns a st' => k a st'
    | Faults f => Faults f
    end.

Notation "'let*' x ':=' c 'in' k" := (bind c (fun x => k))
  (at level 10, x pattern, c at level 100, k at level 200).

Definition crash {A} (f : fault) : cmd A := fun _ => Faults f.

Definition emit (e : event) : cmd unit :=
  fun st =>
    Returns tt {| heap := heap st; the_world := the_world st; trace := trace st ++ [e] |}.

Definition get_world : cmd world := fun st => Returns (the_world st) st.

Definition put_world (w : world) : cmd unit :=
  fun st => Returns tt {| heap := heap st; the_world := w; trace := trace st |}.

(** A fresh block, at the next address.  Allocation does not fail. *)
Definition alloc (b : block) : cmd loc :=
  fun st =>
    Returns (length (heap st))
      {| heap := heap st ++ [Live b]; the_world := the_world st; trace := trace st |}.

(** The bytes of the live [char] buffer at [p]. *)
Definition load (p : ptr) : cmd string :=
  fun st =>
    match p with
    | None => Faults invalid_read
    | Some l =>
        match heap st !! l with
        | Some (Live (Chars buf)) => Returns buf st
        | _ => Faults invalid_read
        end
    end.

Definition store (l : loc) (buf : string) : cmd unit :=
  fun st =>
    match heap st !! l with
    | Some (Live (Chars _)) =>
        Returns tt
          {| heap := <[l := Live (Chars buf)]> (heap st);
             the_world := the_world st; trace := trace st |}
    | _ => Faults invalid_read
    end.

(** Releasing the block at address [l], which has to be live and of the
    kind the deallocator is for. *)
Definition release (for_chars : bool) (l : loc) : cmd unit :=
  fun st =>
    match heap st !! l with
    | Some (Live b) =>
        if Bool.eqb for_chars (match b with Chars _ => true | TlvChain _ => false end)
        then Returns tt
               {| heap := <[l := Freed]> (heap st);
                  the_world := the_world st; trace := trace st |}
        else Faults invalid_free
    | Some Freed => Faults double_free
    | None => Faults invalid_free
    end.

(** [free(p)]; [free(NULL)] does nothing. *)
Definition free (p : ptr) : cmd unit :=
  match p with
  | None => ret tt
  | Some l => release true l
  end.

(** ** libc and host primitives *)

(** [strdup(p)] *)
Definition strdup_at (p : ptr) : cmd loc :=
  let* src := load p in
  alloc (Chars (strdup src)).

(** [strcat] into a buffer of [capacity] bytes that holds [dst]. *)
Definition strcat_into (capacity : nat) (dst src : string) : cmd string :=
  if (strlen dst + strlen src + 1 <=? capacity)%nat
  then ret (strcat dst src)
  else crash buffer_overflow.

Definition glirc_send_message (G : glirc) (m : glirc_message) : cmd unit :=
  emit (ev_glirc_send_message m).

Definition glirc_print (G : glirc) (code : message_code) (text : glirc_string) : cmd unit :=
  emit (ev_glirc_print code text).

Definition glirc_inject_chat (G : glirc) (net src tgt msg : glirc_string) : cmd unit :=
  emit (ev_glirc_inject_chat net src tgt msg).

(** [glirc_my_nick]: a freshly allocated copy of the nick, or NULL. *)
Definition glirc_my_nick (G : glirc) (net : glirc_string) : cmd ptr :=
  let* _ := emit (ev_glirc_my_nick net) in
  let* w := get_world in
  match glirc_my_nick_impl G net w with
  | Some nick => let* l := alloc (Chars (c_str nick)) in ret (Some l)
  | None => ret None
  end.

(** ** The callbacks (lines 15-76) *)

Definition op_policy (opdata : glirc) (context : ConnContext) : cmd OtrlPolicy :=
  ret OTRL_POLICY_DEFAULT.

Definition op_inject (opdata : glirc) (accountname protocol recipient : string)
    (message : ptr) : cmd unit :=
  let* message1 := strdup_at message in
  let* buf := load (Some message1) in
  let* _ := store message1 (scrub_loop buf) in
  let G := opdata in
  let* buf1 := load (Some message1) in
  let params_array :=
    [ mk_glirc_string recipient (strlen recipient);
      mk_glirc_string buf1 (strlen buf1) ] in
  let m :=
    {| network := mk_glirc_string protocol (strlen protocol);
       prefix_nick := "";
       command := mk_glirc_string "PRIVMSG" (strlen "PRIVMSG");
       params := take 2 params_array |} in
  let* _ := glirc_send_message G m in
  free (Some message1).

Definition op_msg_event (opdata : glirc) (msg_event : OtrlMessageEvent)
    (context : ConnContext) (message : option string) (err : gcry_error_t) : cmd unit :=
  let G := opdata in
  match message with
  | Some text =>
      let m := mk_glirc_string text (strlen text) in
      glirc_print G ERROR_MESSAGE m
  | None => ret tt
  end.

Definition op_max_message (opdata : glirc) (context : ConnContext) : cmd Z :=
  ret 400.

Definition op_create_privkey (opdata : glirc) (accountname protocol : string) : cmd unit :=
  let txt := "No private key" in
  let G := opdata in
  let m := mk_glirc_string txt (strlen txt) in
  glirc_print G ERROR_MESSAGE m.

Definition op_is_logged_in (opdata : glirc) (accountname protocol recipient : string) : cmd Z :=
  ret 1.

(** [OtrlMessageAppOps]: the members the extension sets. *)
Record OtrlMessageAppOps := {
  policy : glirc -> ConnContext -> cmd OtrlPolicy;
  create_privkey : glirc -> string -> string -> cmd unit;
  inject_message : glirc -> string -> string -> string -> ptr -> cmd unit;
  max_message_size : glirc -> ConnContext -> cmd Z;
  handle_msg_event :
    glirc -> OtrlMessageEvent -> ConnContext -> option string -> gcry_error_t -> cmd unit;
  is_logged_in : glirc -> string -> string -> string -> cmd Z
}.

Definition ops : OtrlMessageAppOps :=
  {| policy := op_policy;
     create_privkey := op_create_privkey;
     inject_message := op_inject;
     max_message_size := op_max_message;
     handle_msg_event := op_msg_event;
     is_logged_in := op_is_logged_in |}.

(** ** The engine at work *)

(** The engine invokes a callback of the table.  The text it injects is in a
    buffer of its own, which it releases when the callback is back. *)
Definition answer (o : OtrlMessageAppOps) (opdata : glirc) {A} (c : upcall A) : cmd A :=
  match c in upcall T return cmd T with
  | call_policy context => policy o opdata context
  | call_create_privkey accountname protocol =>
      create_privkey o opdata accountname protocol
  | call_is_logged_in accountname protocol recipient =>
      is_logged_in o opdata accountname protocol recipient
  | call_inject_message accountname protocol recipient message =>
      let* fragment := alloc (Chars message) in
      let* _ := inject_message o opdata accountname protocol recipient (Some fragment) in
      free (Some fragment)
  | call_max_message_size context => max_message_size o opdata context
  | call_handle_msg_event msg_event context message err =>
      handle_msg_event o opdata msg_event context message err
  end.

Fixpoint run_engine {R} (o : OtrlMessageAppOps) (opdata : glirc) (e : engine R) : cmd R :=
  match e with
  | Done r => ret r
  | Upcall c k => let* a := answer o opdata c in run_engine o opdata (k a)
  end.

(** The macro [OTRL_INIT]. *)
Definition OTRL_INIT : cmd unit :=
  let* _ := emit ev_OTRL_INIT in
  let* w := get_world in
  match OTRL_INIT_impl w with
  | Some w' => put_world w'
  | None => crash process_exit
  end.

Definition otrl_userstate_create : cmd OtrlUserState :=
  let* w := get_world in
  let (us, w') := otrl_userstate_create_impl w in
  let* _ := put_world w' in
  let* _ := emit (ev_otrl_userstate_create us) in
  ret us.

Definition otrl_userstate_free (us : OtrlUserState) : cmd unit :=
  let* _ := emit (ev_otrl_userstate_free us) in
  let* w := get_world in
  put_world (otrl_userstate_free_impl us w).

Definition otrl_privkey_generate (us : OtrlUserState)
    (filename accountname protocol : string) : cmd gcry_error_t :=
  let* w := get_world in
  let (err, w') :=
    otrl_privkey_generate_impl us (c_str filename) (c_str accountname) (c_str protocol) w in
  let* _ := put_world w' in
  let* _ := emit (ev_otrl_privkey_generate us (c_str filename) (c_str accountname)
                    (c_str protocol) err) in
  ret err.

(** [otrl_message_receiving(us, ops, opdata, accountname, protocol, sender,
    message, &newmessage, &tlvs, NULL, NULL, NULL)]: the return value and the
    two pointers written. *)
Definition otrl_message_receiving (us : OtrlUserState) (o : OtrlMessageAppOps)
    (opdata : glirc) (accountname protocol sender message : ptr) : cmd (Z * ptr * ptr) :=
  let* a := load accountname in
  let* p := load protocol in
  let* s := load sender in
  let* m := load message in
  let* _ := emit (ev_otrl_message_receiving us (c_str a) (c_str p) (c_str s) (c_str m)) in
  let* w := get_world in
  let* (r, w') :=
    run_engine o opdata (otrl_message_receiving_impl us (c_str a) (c_str p) (c_str s) (c_str m) w) in
  let* _ := put_world w' in
  let* newmessage :=
    match recv_newmessage r with
    | Some plain => let* l := alloc (Chars plain) in ret (Some l)
    | None => ret None
    end in
  let* tlvs :=
    match recv_tlvs r with
    | [] => ret None
    | chain => let* l := alloc (TlvChain chain) in ret (Some l)
    end in
  let* _ := emit (ev_otrl_message_receiving_returned (recv_ret r) (recv_newmessage r)
                    (recv_tlvs r)) in
  ret (recv_ret r, newmessage, tlvs).

(** [otrl_message_sending(us, ops, opdata, accountname, protocol, recipient,
    instag, message, NULL, &newmsg, fragPolicy, NULL, NULL, NULL)]: the error
    code and the pointer written. *)
Definition otrl_message_sending (us : OtrlUserState) (o : OtrlMessageAppOps)
    (opdata : glirc) (accountname protocol recipient : ptr) (instag : otrl_instag_t)
    (message : ptr) (fragPolicy : OtrlFragmentPolicy) : cmd (gcry_error_t * ptr) :=
  let* a :=
    match accountname with
    | Some _ => let* buf := load accountname in ret (Some (c_str buf))
    | None => ret None
    end in
  let* p := load protocol in
  let* t := load recipient in
  let* m := load message in
  let* _ := emit (ev_otrl_message_sending us a (c_str p) (c_str t) instag (c_str m)
                    fragPolicy) in
  let* w := get_world in
  let* (r, w') :=
    run_engine o opdata
      (otrl_message_sending_impl us a (c_str p) (c_str t) instag (c_str m) fragPolicy w) in
  let* _ := put_world w' in
  let* newmsg :=
    match send_newmsg r with
    | Some text => let* l := alloc (Chars text) in ret (Some l)
    | None => ret None
    end in
  let* _ := emit (ev_otrl_message_sending_returned (send_err r) (send_newmsg r)) in
  ret (send_err r, newmsg).

(** [otrl_message_free(message)]: frees the message unless it is NULL. *)
Definition otrl_message_free (message : ptr) : cmd unit :=
  match message with
  | None => ret tt
  | Some l => release true l
  end.

(** [otrl_tlv_free(tlv)]: frees the whole chain; the empty chain is NULL. *)
Definition otrl_tlv_free (tlv : ptr) : cmd unit :=
  match tlv with
  | None => ret tt
  | Some l => release false l
  end.

(** ** The entry points (lines 78-166) *)

Definition start_entrypoint (G : glirc) (path : string) : cmd OtrlUserState :=
  let keyfile := EmptyString in
  let keyfile :=
    match dirname_r_impl (c_str path) with
    | Some dir => c_str dir
    | None => keyfile
    end in
  let* keyfile := strcat_into PATH_MAX keyfile "/keyfile" in
  let* _ := OTRL_INIT in
  let* us := otrl_userstate_create in
  let* _ := otrl_privkey_generate us keyfile "glguy" "elis.local" in
  ret us.

Definition stop_entrypoint (G : glirc) (L : OtrlUserState) : cmd unit :=
  let us := L in
  otrl_userstate_free us.

Definition import_string (s : glirc_string) : cmd ptr :=
  let* l := alloc (Chars (strndup (str s) (len s))) in
  ret (Some l).

(** [params[i]] *)
Definition param (msg : glirc_message) (i : nat) : cmd glirc_string :=
  match params msg !! i with
  | Some s => ret s
  | None => crash out_of_bounds
  end.

Definition is_null (p : ptr) : bool :=
  match p with
  | None => true
  | Some _ => false
  end.

Definition message_entrypoint (G : glirc) (L : OtrlUserState) (msg : glirc_message)
    : cmd process_result :=
  if (0 =? strncmp "PRIVMSG" (str (command msg)) (len (command msg)))
     && (params_n msg =? 2)%nat
  then
    let us := L in
    let* sender := import_string (prefix_nick msg) in
    let* p0 := param msg 0 in
    let* target := import_string p0 in
    let* p1 := param msg 1 in
    let* message := import_string p1 in
    let* net := import_string (network msg) in
    let* (drop, newmessage, tlvs) :=
      otrl_message_receiving us ops G target net sender message in
    let* _ :=
      if negb (is_null newmessage) then
        let* plain := load newmessage in
        glirc_inject_chat G (network msg) (prefix_nick msg) (prefix_nick msg)
          (mk_glirc_string plain (strlen plain))
      else ret tt in
    let* _ := otrl_tlv_free tlvs in
    let* _ := otrl_message_free newmessage in
    let* _ := free sender in
    let* _ := free target in
    let* _ := free message in
    let* _ := free net in
    ret (if negb (is_null newmessage) || negb (drop =? 0)
         then DROP_MESSAGE else PASS_MESSAGE)
  else ret PASS_MESSAGE.

Definition chat_entrypoint (G : glirc) (L : OtrlUserState) (chat : glirc_chat)
    : cmd process_result :=
  let us := L in
  let* net := import_string (chat_network chat) in
  let* tgt := import_string (chat_target chat) in
  let* msg := import_string (chat_message chat) in
  let* me := glirc_my_nick G (chat_network chat) in
  let* (err, newmsg) :=
    otrl_message_sending us ops G me net tgt OTRL_INSTAG_BEST msg
      OTRL_FRAGMENT_SEND_ALL in
  let* _ := free msg in
  let* _ := free tgt in
  let* _ := free net in
  let* _ := free me in
  if negb (is_null newmsg) then
    let* _ := otrl_message_free newmsg in
    ret DROP_MESSAGE
  else if negb (err =? 0) then
    let errTxt := "PANIC: OTR encryption error" in
    let m := mk_glirc_string errTxt (strlen errTxt) in
    let* _ := glirc_print G ERROR_MESSAGE m in
    ret DROP_MESSAGE
  else ret PASS_MESSAGE.

(** The host hands the extension one received message after the other. *)
Fixpoint process_messages (G : glirc) (L : OtrlUserState) (msgs : list glirc_message)
    : cmd (list process_result) :=
  match msgs with
  | [] => ret []
  | msg :: rest =>
      let* r := message_entrypoint G L msg in
      let* rs := process_messages G L rest in
      ret (r :: rs)
  end.

(** ** Vocabulary of the properties *)

(** The events a callback of the table causes: messages handed to the
    host's outbound primitive and notifications. *)
Definition callback_event (e : event) : Prop :=
  match e with
  | ev_glirc_send_message _ | ev_glirc_print _ _ => True
  | _ => False
  end.

(** The calls into the engine's receive path. *)
Definition receive_call (e : event) : bool :=
  match e with
  | ev_otrl_message_receiving _ _ _ _ _ => true
  | _ => false
  end.

(** The notifications shown through the host's display primitive. *)
Definition notification (e : event) : bool :=
  match e with
  | ev_glirc_print _ _ => true
  | _ => false
  end.

(** The lines shown as chat. *)
Definition chat_line (e : event) : bool :=
  match e with
  | ev_glirc_inject_chat _ _ _ _ => true
  | _ => false
  end.

(** The live blocks of a heap, with their addresses. *)
Fixpoint live_from (l : loc) (h : list cell) : list (loc * block) :=
  match h with
  | [] => []
  | Live b :: rest => (l, b) :: live_from (S l) rest
  | Freed :: rest => live_from (S l) rest
  end.

Definition live (h : list cell) : list (loc * block) := live_from O h.

(** What the host hands to the extension: a received message, for
    [message_entrypoint], or a line the user typed, for [chat_entrypoint]. *)
Inductive host_event :=
| Received (msg : glirc_message)
| Typed (chat : glirc_chat).

Definition process_event (G : glirc) (L : OtrlUserState) (e : host_event)
    : cmd process_result :=
  match e with
  | Received msg => message_entrypoint G L msg
  | Typed chat => chat_entrypoint G L chat
  end.

Fixpoint process_events (G : glirc) (L : OtrlUserState) (es : list host_event)
    : cmd (list process_result) :=
  match es with
  | [] => ret []
  | e :: rest =>
      let* r := process_event G L e in
      let* rs := process_events G L rest in
      ret (r :: rs)
  end.

(** The commands the guard of [message_entrypoint] lets through: the
    prefixes of "PRIVMSG", and "PRIVMSG" followed by a NUL byte and anything. *)
Definition passes_guard (msg : glirc_message) : bool :=
  (String.prefix (command msg) "PRIVMSG"
   || String.prefix ("PRIVMSG" ++ String NUL EmptyString) (command msg))
  && (params_n msg =? 2)%nat.

(** A message handed to the host's outbound primitive that keeps the line
    framing: a "PRIVMSG" with two parameters whose text holds no newline.
    A notification is of the error kind.  Other events are not restricted. *)
Definition in_line (e : event) : Prop :=
  match e with
  | ev_glirc_send_message m =>
      command m = "PRIVMSG"
      /\ exists recipient text : glirc_string,
           params m = [recipient; text] /\ count_byte newline text = O
  | ev_glirc_print code _ => code = ERROR_MESSAGE
  | _ => True
  end.

(** A command all of whose events are [in_line]. *)
Definition stays_in_line {A} (c : cmd A) : Prop :=
  forall (st : state) (a : A) (st' : state),
    c st = Returns a st' ->
    exists new : list event, trace st' = (trace st ++ new)%list /\ Forall in_line new.

(** The live start of a session and its end: [start_entrypoint], then
    [stop_entrypoint] on the handle it returned. *)
Definition start_then_stop (G : glirc) (path : string) : cmd unit :=
  let* L := start_entrypoint G path in
  stop_entrypoint G L.

End Extension.

Arguments Returns {env A} a st.
Arguments Faults {env A} f.

(** ** A test double for the engine and the host

    A small engine and host to run the extension against: a file system with
    read-only paths, key files that key generation overwrites, peers with an
    established session, and an engine that answers a query message with a
    handshake message of two lines. *)

Module TestDouble.

Record test_world := {
  initialised : bool;
  userstates : nat;
  (** the key files: path and serial number of the key stored there *)
  key_files : list (string * nat);
  keys_generated : nat;
  read_only : list string;
  (** the host's connections: network and nick *)
  nicks : list (string * string);
  (** the peers with an established session *)
  encrypted_with : list string
}.

Definition GPG_ERR_INV_VALUE : gcry_error_t := 55.
Definition GPG_ERR_EACCES : gcry_error_t := 32770.
Definition GPG_ERR_ENOMEM : gcry_error_t := 32854.
Definition OTRL_MSGEVENT_SETUP_ERROR : OtrlMessageEvent := 8.

Definition mem_string (s : string) (l : list string) : bool :=
  existsb (String.eqb s) l.

Fixpoint lookup_string {V} (s : string) (l : list (string * V)) : option V :=
  match l with
  | [] => None
  | (k, v) :: rest => if String.eqb s k then Some v else lookup_string s rest
  end.

Definition is_slash (c : ascii) : bool := Ascii.eqb c "/"%char.

(** [while (endp > path && P( *endp )) endp--;] on the reversed prefix of the
    path that ends at [endp]. *)
Fixpoint back_while (P : ascii -> bool) (r : list ascii) : list ascii :=
  match r with
  | c :: (_ :: _) as r' => if P c then back_while P r' else r
  | _ => r
  end.

(** [dirname_r] of BSD libc. *)
Definition dirname (limit : nat) (path : string) : option string :=
  match list_ascii_of_string path with
  | [] => Some "."
  | chars =>
      let r1 := back_while is_slash (rev chars) in
      let r2 := back_while (fun c => negb (is_slash c)) r1 in
      match r2 with
      | [c] => Some (if is_slash c then "/" else ".")
      | r2 =>
          let r3 := back_while is_slash (tl r2) in
          if (limit <=? length r3)%nat then None
          else Some (string_of_list_ascii (rev r3))
      end
  end.

Definition context_of (accountname protocol username : string) : ConnContext :=
  {| ctx_accountname := accountname; ctx_protocol := protocol;
     ctx_username := username |}.

Definition generate (us : nat) (filename accountname protocol : string) (w : test_world)
    : gcry_error_t * test_world :=
  if mem_string filename (read_only w) then (GPG_ERR_EACCES, w)
  else
    (0,
     {| initialised := initialised w;
        userstates := userstates w;
        key_files :=
          (filename, S (keys_generated w))
          :: filter (fun kv => negb (String.eqb filename (fst kv))) (key_files w);
        keys_generated := S (keys_generated w);
        read_only := read_only w;
        nicks := nicks w;
        encrypted_with := encrypted_with w |}).

Definition with_session (peer : string) (w : test_world) : test_world :=
  {| initialised := initialised w;
     userstates := userstates w;
     key_files := key_files w;
     keys_generated := keys_generated w;
     read_only := read_only w;
     nicks := nicks w;
     encrypted_with := peer :: encrypted_with w |}.

Definition handshake : string :=
  "?OTR:AAMC" ++ String newline "commit".

Definition receive (us : nat) (accountname protocol sender message : string)
    (w : test_world) : engine (receiving * test_world) :=
  if String.prefix "?OTR:" message then
    Done ({| recv_ret := 0;
             recv_newmessage := Some (substring 5 (String.length message - 5) message);
             recv_tlvs := [ {| tlv_type := 0; tlv_data := "" |} ] |}, w)
  else if String.prefix "?OTRv" message then
    Upcall (call_policy (context_of accountname protocol sender)) (fun _ =>
    Upcall (call_inject_message accountname protocol sender handshake) (fun _ =>
    Done ({| recv_ret := 1; recv_newmessage := None; recv_tlvs := [] |},
          with_session sender w)))
  else
    Done ({| recv_ret := 0; recv_newmessage := None; recv_tlvs := [] |}, w).

Definition send (us : nat) (accountname : option string) (protocol recipient : string)
    (instag : otrl_instag_t) (message : string) (fragPolicy : OtrlFragmentPolicy)
    (w : test_world) : engine (sending * test_world) :=
  match accountname with
  | None => Done ({| send_err := GPG_ERR_INV_VALUE; send_newmsg := None |}, w)
  | Some account =>
      if mem_string recipient (encrypted_with w) then
        if (userstates w <=? us)%nat then
          (* no such user state: nothing can be encrypted *)
          Upcall (call_handle_msg_event OTRL_MSGEVENT_SETUP_ERROR
                    (context_of account protocol recipient) None 0) (fun _ =>
          Done ({| send_err := GPG_ERR_INV_VALUE; send_newmsg := None |}, w))
        else
          let cipher := "?OTR:" ++ message in
          Upcall (call_max_message_size (context_of account protocol recipient)) (fun mms =>
          if Z.of_nat (String.length cipher) <=? mms then
            Upcall (call_inject_message account protocol recipient cipher) (fun _ =>
            Done ({| send_err := 0; send_newmsg := Some cipher |}, w))
          else
            (* the fragments cannot be built: the error comes back with the
               unfragmented message still in place *)
            Done ({| send_err := GPG_ERR_ENOMEM; send_newmsg := Some cipher |}, w))
      else Done ({| send_err := 0; send_newmsg := None |}, w)
  end.

Definition test_env : Env :=
  {| glirc := unit;
     OtrlUserState := nat;
     world := test_world;
     PATH_MAX := 1024;
     OTRL_POLICY_DEFAULT := 118;
     OTRL_INSTAG_BEST := 1;
     dirname_r_impl := dirname 1024;
     OTRL_INIT_impl := fun w =>
       Some {| initialised := true;
               userstates := userstates w;
               key_files := key_files w;
               keys_generated := keys_generated w;
               read_only := read_only w;
               nicks := nicks w;
               encrypted_with := encrypted_with w |};
     otrl_userstate_create_impl := fun w =>
       (userstates w,
        {| initialised := initialised w;
           userstates := S (userstates w);
           key_files := key_files w;
           keys_generated := keys_generated w;
           read_only := read_only w;
           nicks := nicks w;
           encrypted_with := encrypted_with w |});
     otrl_userstate_free_impl := fun us w => w;
     otrl_privkey_generate_impl := generate;
     otrl_message_receiving_impl := receive;
     otrl_message_sending_impl := send;
     glirc_my_nick_impl := fun _ net w => lookup_string net (nicks w) |}.

(** A world with a key file in place and one peer with a session. *)
Definition w0 : test_world :=
  {| initialised := false;
     userstates := 0;
     key_files := [("/home/u/.glirc/keyfile", 1%nat)];
     keys_generated := 1;
     read_only := ["/usr/lib/glirc/keyfile"];
     nicks := [("libera", "glguy")];
     encrypted_with := ["alice"] |}.

Definition st0 : state :=
  @Build_state test_env [] w0 [].

(** The world after a start: one user state. *)
Definition w1 : test_world :=
  {| initialised := true;
     userstates := 1;
     key_files := [("/home/u/.glirc/keyfile", 1%nat)];
     keys_generated := 1;
     read_only := [];
     nicks := [("libera", "glguy")];
     encrypted_with := ["alice"] |}.

Definition st1 : state :=
  @Build_state test_env [] w1 [].

Definition privmsg (nick target text : string) : glirc_message :=
  {| network := "libera"; prefix_nick := nick; command := "PRIVMSG";
     params := [target; text] |}.

(** A message whose command is "PRIV", with two parameters. *)
Definition priv (nick target text : string) : glirc_message :=
  {| network := "libera"; prefix_nick := nick; command := "PRIV";
     params := [target; text] |}.

(** A state in which the engine holds the handshake message in a buffer of
    its own, at address 0. *)
Definition st_buf : state :=
  @Build_state test_env [Live (Chars handshake)] w1 [].

(** 400 bytes of text: with its header the ciphertext is over the size the
    extension allows for one message. *)
Definition long_text : string := string_of_list_ascii (repeat "a"%char 400).

Definition chat_to (target text : string) : glirc_chat :=
  {| chat_network := "libera"; chat_target := target; chat_message := text |}.

(** The extension installed in a directory whose name has [n] bytes. *)
Definition installed_in (n : nat) : string :=
  (string_of_list_ascii (repeat "a"%char n) ++ "/otr.so")%string.

(** A state in which the engine holds a text of one line in a buffer of its
    own, at address 0. *)
Definition st_line : state :=
  @Build_state test_env [Live (Chars "?OTR:AAMD,1,2,abcd,")] w1 [].

End TestDouble.


(** * Properties *)

(** ** C strings *)

Module CStringFacts.

Lemma eqb_NUL_false_newline_to_space (c : ascii) :
  Ascii.eqb c NUL = false -> Ascii.eqb (newline_to_space c) NUL = false.
Proof.
  intros Hc. unfold newline_to_space.
  destruct (Ascii.eqb c newline); [reflexivity | exact Hc].
Qed.

Lemma strlen_c_str (buf : string) : strlen buf = String.length (c_str buf).
Proof.
  induction buf as [|c rest IH]; simpl; [reflexivity|].
  destruct (Ascii.eqb c NUL); simpl; congruence.
Qed.

Lemma c_str_idem (buf : string) : c_str (c_str buf) = c_str buf.
Proof.
  induction buf as [|c rest IH]; simpl; [reflexivity|].
  destruct (Ascii.eqb c NUL) eqn:E; simpl; [reflexivity|].
  rewrite E, IH. reflexivity.
Qed.

Lemma strlen_c_str_idem (buf : string) : strlen (c_str buf) = strlen buf.
Proof. rewrite !strlen_c_str, c_str_idem. reflexivity. Qed.

Lemma c_str_app (a b : string) : c_str (c_str a ++ c_str b) = c_str a ++ c_str b.
Proof.
  induction a as [|c rest IH]; simpl; [apply c_str_idem|].
  destruct (Ascii.eqb c NUL) eqn:E; simpl; [apply c_str_idem|].
  rewrite E, IH. reflexivity.
Qed.

Lemma mk_glirc_string_strlen (buf : string) :
  mk_glirc_string buf (strlen buf) = c_str buf.
Proof.
  unfold mk_glirc_string.
  induction buf as [|c rest IH]; simpl; [reflexivity|].
  destruct (Ascii.eqb c NUL); simpl; [reflexivity|].
  rewrite IH. reflexivity.
Qed.

Lemma strndup_len (s : glirc_string) : strndup (str s) (len s) = c_str s.
Proof.
  unfold str, len.
  induction s as [|c rest IH]; simpl; [reflexivity|].
  destruct (Ascii.eqb c NUL); [reflexivity|]. rewrite IH. reflexivity.
Qed.

(** On a C string the loop visits every byte. *)
Lemma scrub_loop_c_str (buf : string) :
  scrub_loop (c_str buf) = map_bytes newline_to_space (c_str buf).
Proof.
  induction buf as [|c rest IH]; simpl; [reflexivity|].
  destruct (Ascii.eqb c NUL) eqn:E; simpl; [reflexivity|].
  rewrite E, IH. reflexivity.
Qed.

(** The scrubbed copy is still a C string: no NUL appears. *)
Lemma c_str_scrubbed (buf : string) :
  c_str (map_bytes newline_to_space (c_str buf)) = map_bytes newline_to_space (c_str buf).
Proof.
  induction buf as [|c rest IH]; simpl; [reflexivity|].
  destruct (Ascii.eqb c NUL) eqn:E; simpl; [reflexivity|].
  rewrite (eqb_NUL_false_newline_to_space c E), IH. reflexivity.
Qed.

Lemma length_map_bytes (f : ascii -> ascii) (s : string) :
  String.length (map_bytes f s) = String.length s.
Proof. induction s as [|c rest IH]; simpl; congruence. Qed.

Lemma get_map_bytes (f : ascii -> ascii) (s : string) (i : nat) :
  String.get i (map_bytes f s) = option_map f (String.get i s).
Proof.
  revert i. induction s as [|c rest IH]; intros i; simpl; [reflexivity|].
  destruct i; simpl; [reflexivity | apply IH].
Qed.

Lemma no_newline_scrubbed (s : string) :
  count_byte newline (map_bytes newline_to_space s) = O.
Proof.
  induction s as [|c rest IH]; simpl; [reflexivity|].
  rewrite IH. unfold newline_to_space.
  destruct (Ascii.eqb c newline) eqn:E; [reflexivity | rewrite E; reflexivity].
Qed.

End CStringFacts.
Import CStringFacts.

(** ** Running commands *)

Local Close Scope Z_scope.
Local Open Scope list_scope.

Section Execution.
Context {env : Env}.

Lemma bind_Returns {A B} (c : cmd A) (k : A -> cmd B) (st st' : state) (a : A) :
  c st = Returns a st' -> bind c k st = k a st'.
Proof. intros H. unfold bind. rewrite H. reflexivity. Qed.

Lemma Returns_eq {A} (a : A) (h1 h2 : list cell) (w : world) (t1 t2 : list event) :
  h1 = h2 -> t1 = t2 ->
  ret a (@Build_state env h1 w t1) = Returns a (@Build_state env h2 w t2).
Proof. intros -> ->. reflexivity. Qed.

Lemma insert_middle {T} (X rest : list T) (x y : T) :
  <[length X := y]> (X ++ x :: rest) = X ++ y :: rest.
Proof.
  replace (length X) with (length X + 0)%nat by lia.
  rewrite insert_app_r. reflexivity.
Qed.

Lemma load_middle (X rest : list cell) (buf : string) (w : world) (t : list event) :
  load (Some (length X)) (@Build_state env (X ++ Live (Chars buf) :: rest) w t)
  = Returns buf (@Build_state env (X ++ Live (Chars buf) :: rest) w t).
Proof.
  unfold load. simpl. rewrite list_lookup_middle by reflexivity. reflexivity.
Qed.

Lemma release_middle (X rest : list cell) (b : block) (w : world) (t : list event) :
  release (match b with Chars _ => true | TlvChain _ => false end) (length X)
    (@Build_state env (X ++ Live b :: rest) w t)
  = Returns tt (@Build_state env (X ++ Freed :: rest) w t).
Proof.
  unfold release. simpl. rewrite list_lookup_middle by reflexivity.
  rewrite insert_middle. destruct b; reflexivity.
Qed.

Lemma free_middle (X rest : list cell) (buf : string) (w : world) (t : list event) :
  free (Some (length X)) (@Build_state env (X ++ Live (Chars buf) :: rest) w t)
  = Returns tt (@Build_state env (X ++ Freed :: rest) w t).
Proof. apply (release_middle X rest (Chars buf)). Qed.

Lemma live_from_app (h1 h2 : list cell) (l : loc) :
  live_from l (h1 ++ h2) = live_from l h1 ++ live_from (l + length h1) h2.
Proof.
  revert l. induction h1 as [|c h1 IH]; intros l; simpl.
  - rewrite Nat.add_0_r. reflexivity.
  - replace (l + S (length h1))%nat with (S l + length h1)%nat by lia.
    destruct c; simpl; rewrite IH; reflexivity.
Qed.

Lemma live_from_replicate_Freed (k : nat) (l : loc) :
  live_from l (replicate k Freed) = [].
Proof. revert l. induction k as [|k IH]; intros l; simpl; [reflexivity | apply IH]. Qed.

(** Cells that were released do not count: the live blocks are those of
    before. *)
Lemma live_settled (h : list cell) (k : nat) :
  live (h ++ replicate k Freed) = live h.
Proof.
  unfold live. rewrite live_from_app, live_from_replicate_Freed.
  apply app_nil_r.
Qed.

(** What [op_inject] does, given the buffer its [message] points at. *)
Lemma op_inject_spec (G : glirc) (accountname protocol recipient : string)
    (message : loc) (buf : string) (st : state) :
  heap st !! message = Some (Live (Chars buf)) ->
  op_inject G accountname protocol recipient (Some message) st
  = Returns tt
      {| heap := heap st ++ [Freed];
         the_world := the_world st;
         trace := trace st ++
           [ev_glirc_send_message
              {| network := c_str protocol;
                 prefix_nick := "";
                 command := "PRIVMSG";
                 params := [c_str recipient;
                            map_bytes newline_to_space (c_str buf)] |}] |}.
Proof.
  intros Hbuf. destruct st as [h w t]. simpl in Hbuf.
  unfold op_inject, strdup_at, bind at 1 2, load at 1. simpl.
  rewrite Hbuf. unfold alloc. simpl.
  rewrite (bind_Returns _ _ _ _ _ (load_middle h [] _ w t)).
  unfold bind at 1, store. simpl.
  rewrite list_lookup_middle by reflexivity. rewrite insert_middle.
  rewrite (bind_Returns _ _ _ _ _ (load_middle h [] _ w t)).
  unfold bind, glirc_send_message, emit. simpl.
  rewrite (release_middle h [] (Chars _)).
  unfold strdup. rewrite scrub_loop_c_str, !mk_glirc_string_strlen, c_str_scrubbed.
  reflexivity.
Qed.

Lemma lookup_at {T} (X rest : list T) (x : T) (l : nat) (hp : list T) :
  l = length X -> hp = X ++ x :: rest -> hp !! l = Some x.
Proof. intros -> ->. apply list_lookup_middle. reflexivity. Qed.

(** Access to the cell at a given place of the heap. *)
Lemma load_at (X rest : list cell) (buf : string) (l : loc) (hp : list cell)
    (w : world) (t : list event) :
  l = length X -> hp = X ++ Live (Chars buf) :: rest ->
  load (Some l) (@Build_state env hp w t) = Returns buf (@Build_state env hp w t).
Proof. intros -> ->. apply load_middle. Qed.

Lemma release_at (X rest : list cell) (b : block) (l : loc) (hp : list cell)
    (w : world) (t : list event) :
  l = length X -> hp = X ++ Live b :: rest ->
  release (match b with Chars _ => true | TlvChain _ => false end) l
    (@Build_state env hp w t)
  = Returns tt (@Build_state env (X ++ Freed :: rest) w t).
Proof. intros -> ->. apply release_middle. Qed.

Lemma release_chars_at (X rest : list cell) (buf : string) (l : loc) (hp : list cell)
    (w : world) (t : list event) :
  l = length X -> hp = X ++ Live (Chars buf) :: rest ->
  release true l (@Build_state env hp w t)
  = Returns tt (@Build_state env (X ++ Freed :: rest) w t).
Proof. apply (release_at X rest (Chars buf)). Qed.

Lemma release_tlvs_at (X rest : list cell) (chain : list OtrlTLV) (l : loc)
    (hp : list cell) (w : world) (t : list event) :
  l = length X -> hp = X ++ Live (TlvChain chain) :: rest ->
  release false l (@Build_state env hp w t)
  = Returns tt (@Build_state env (X ++ Freed :: rest) w t).
Proof. apply (release_at X rest (TlvChain chain)). Qed.

(** A callback of the table returns, leaves the live blocks alone and
    releases what it allocated; it causes callback events only. *)
Lemma answer_ops {A} (c : upcall A) (G : glirc) (h : list cell) (w : world)
    (t : list event) :
  exists (a : A) (k : nat) (up : list event),
    answer ops G c (@Build_state env h w t)
    = Returns a (@Build_state env (h ++ replicate k Freed) w (t ++ up))
    /\ Forall callback_event up.
Proof.
  destruct c; simpl.
  - exists OTRL_POLICY_DEFAULT, 0, []. simpl. rewrite !app_nil_r.
    split; [reflexivity | constructor].
  - eexists tt, 0, [_]. simpl. rewrite app_nil_r.
    split; [reflexivity | repeat constructor].
  - exists 1%Z, 0, []. simpl. rewrite !app_nil_r.
    split; [reflexivity | constructor].
  - eexists tt, 2, [_]. unfold bind at 1, alloc. simpl.
    erewrite bind_Returns; cycle 1.
    { apply op_inject_spec. simpl. apply list_lookup_middle. reflexivity. }
    simpl. rewrite (release_at h [Freed] (Chars message)); cycle 1.
    { reflexivity. }
    { rewrite <- app_assoc. reflexivity. }
    split; [reflexivity | repeat constructor].
  - exists 400%Z, 0, []. simpl. rewrite !app_nil_r.
    split; [reflexivity | constructor].
  - destruct message as [text|]; simpl.
    + eexists tt, 0, [_]. simpl. rewrite app_nil_r.
      split; [reflexivity | repeat constructor].
    + exists tt, 0, []. simpl. rewrite !app_nil_r.
      split; [reflexivity | constructor].
Qed.

(** So does a whole run of the engine, whatever the engine is: it returns,
    with the heap of before and some released cells after it. *)
Lemma run_engine_ops {R} (e : engine R) (G : glirc) (h : list cell) (w : world)
    (t : list event) :
  exists (r : R) (k : nat) (up : list event),
    run_engine ops G e (@Build_state env h w t)
    = Returns r (@Build_state env (h ++ replicate k Freed) w (t ++ up))
    /\ Forall callback_event up.
Proof.
  revert h t. induction e as [r | A c k IH]; intros h t; simpl.
  - exists r, 0, []. simpl. rewrite !app_nil_r. split; [reflexivity | constructor].
  - destruct (answer_ops c G h w t) as (a & k1 & up1 & Ha & Hup1).
    destruct (IH a (h ++ replicate k1 Freed) (t ++ up1)) as (r & k2 & up2 & Hr & Hup2).
    exists r, (k1 + k2), (up1 ++ up2).
    rewrite (bind_Returns _ _ _ _ _ Ha), Hr.
    rewrite replicate_add, !app_assoc.
    split; [reflexivity | apply Forall_app; split; assumption].
Qed.

(** What a callback answers, shows and allocates does not depend on the
    state it is invoked in. *)
Lemma answer_ops_uniform {A} (c : upcall A) (G : glirc) :
  exists (a : A) (k : nat) (up : list event),
    Forall callback_event up
    /\ forall (h : list cell) (w : world) (t : list event),
         answer ops G c (@Build_state env h w t)
         = Returns a (@Build_state env (h ++ replicate k Freed) w (t ++ up)).
Proof.
  destruct c; simpl.
  - exists OTRL_POLICY_DEFAULT, 0, []. split; [constructor|]. intros h w t.
    simpl. rewrite !app_nil_r. reflexivity.
  - eexists tt, 0, [_]. split; cycle 1.
    { intros h w t. simpl. rewrite app_nil_r. reflexivity. }
    repeat constructor.
  - exists 1%Z, 0, []. split; [constructor|]. intros h w t.
    simpl. rewrite !app_nil_r. reflexivity.
  - exists tt, 2.
    exists [ev_glirc_send_message
              {| network := c_str protocol;
                 prefix_nick := "";
                 command := "PRIVMSG";
                 params := [c_str recipient;
                            map_bytes newline_to_space (c_str message)] |}].
    split; [repeat constructor|]. intros h w t.
    unfold bind at 1, alloc. simpl.
    erewrite bind_Returns; cycle 1.
    { apply op_inject_spec. simpl. apply list_lookup_middle. reflexivity. }
    simpl. rewrite (release_at h [Freed] (Chars message)); cycle 1.
    { reflexivity. }
    { rewrite <- app_assoc. reflexivity. }
    reflexivity.
  - exists 400%Z, 0, []. split; [constructor|]. intros h w t.
    simpl. rewrite !app_nil_r. reflexivity.
  - destruct message as [text|]; simpl.
    + eexists tt, 0, [_]. split; cycle 1.
      { intros h w t. simpl. rewrite app_nil_r. reflexivity. }
      repeat constructor.
    + exists tt, 0, []. split; [constructor|]. intros h w t.
      simpl. rewrite !app_nil_r. reflexivity.
Qed.

(** So a run of the engine with the callbacks of the table has one result,
    one list of events and one number of cells, in whatever state it starts. *)
Lemma run_engine_ops_uniform {R} (e : engine R) (G : glirc) :
  exists (r : R) (k : nat) (up : list event),
    Forall callback_event up
    /\ forall (h : list cell) (w : world) (t : list event),
         run_engine ops G e (@Build_state env h w t)
         = Returns r (@Build_state env (h ++ replicate k Freed) w (t ++ up)).
Proof.
  induction e as [r | A c k IH]; simpl.
  - exists r, 0, []. split; [constructor|]. intros h w t.
    simpl. rewrite !app_nil_r. reflexivity.
  - destruct (answer_ops_uniform c G) as (a & k1 & up1 & Hup1 & Ha).
    destruct (IH a) as (r & k2 & up2 & Hup2 & Hr).
    exists r, (k1 + k2), (up1 ++ up2).
    split; [apply Forall_app; split; assumption|]. intros h w t.
    rewrite (bind_Returns _ _ _ _ _ (Ha h w t)), Hr.
    rewrite replicate_add, !app_assoc. reflexivity.
Qed.

End Execution.

Ltac heap_len := rewrite ?length_app, ?length_replicate; simpl; lia.
Ltac heap_shape := rewrite <- ?app_assoc; simpl; reflexivity.

(** The four copies made by [import_string] sit right after [h]; they are
    freed in the order they were made. *)
Ltac free_inputs h :=
  erewrite bind_Returns;
    [ | eapply (release_chars_at h); [heap_len | heap_shape] ];
  erewrite bind_Returns;
    [ | eapply (release_chars_at (h ++ [Freed])); [heap_len | heap_shape] ];
  erewrite bind_Returns;
    [ | eapply (release_chars_at (h ++ [Freed; Freed])); [heap_len | heap_shape] ];
  erewrite bind_Returns;
    [ | eapply (release_chars_at (h ++ [Freed; Freed; Freed])); [heap_len | heap_shape] ].

Ltac heap_eq :=
  simpl; rewrite <- ?app_assoc; simpl; rewrite ?replicate_add; simpl;
  rewrite <- ?app_assoc, ?app_nil_r; reflexivity.
Ltac trace_eq :=
  simpl; rewrite <- ?app_assoc; simpl; rewrite <- ?app_assoc; reflexivity.

Section Inbound.
Context {env : Env}.

(** The call of the receive path from [message_entrypoint]: the engine sees
    the C strings of the four buffers, runs (with its callbacks), and hands
    back a return value and up to two fresh blocks. *)
Lemma otrl_message_receiving_spec (us : OtrlUserState) (G : glirc)
    (pa pp ps pm : loc) (a p s m : string) (h : list cell) (w : world)
    (t : list event) :
  h !! pa = Some (Live (Chars a)) ->
  h !! pp = Some (Live (Chars p)) ->
  h !! ps = Some (Live (Chars s)) ->
  h !! pm = Some (Live (Chars m)) ->
  exists (r : receiving) (w' : world) (k : nat) (up : list event),
    otrl_message_receiving us ops G (Some pa) (Some pp) (Some ps) (Some pm)
      (@Build_state env h w t)
    = Returns
        (recv_ret r,
         match recv_newmessage r with
         | Some _ => Some (length (h ++ replicate k Freed))
         | None => None
         end,
         match recv_tlvs r with
         | [] => None
         | _ =>
             Some (length ((h ++ replicate k Freed)
                           ++ match recv_newmessage r with
                              | Some plain => [Live (Chars plain)]
                              | None => []
                              end))
         end)
        (@Build_state env
           (((h ++ replicate k Freed)
             ++ match recv_newmessage r with
                | Some plain => [Live (Chars plain)]
                | None => []
                end)
            ++ match recv_tlvs r with
               | [] => []
               | chain => [Live (TlvChain chain)]
               end)
           w'
           (t ++ ev_otrl_message_receiving us (c_str a) (c_str p) (c_str s) (c_str m)
              :: up
              ++ [ev_otrl_message_receiving_returned (recv_ret r) (recv_newmessage r)
                    (recv_tlvs r)]))
    /\ Forall callback_event up
    /\ forall (h0 : list cell) (w0 : world) (t0 : list event),
         run_engine ops G
           (otrl_message_receiving_impl us (c_str a) (c_str p) (c_str s) (c_str m) w)
           (@Build_state env h0 w0 t0)
         = Returns (r, w') (@Build_state env (h0 ++ replicate k Freed) w0 (t0 ++ up)).
Proof.
  intros Ha Hp Hs Hm.
  destruct (run_engine_ops_uniform
              (otrl_message_receiving_impl us (c_str a) (c_str p) (c_str s) (c_str m) w)
              G)
    as ([r w'] & k & up & Hup & Hall).
  pose proof (Hall h w
                (t ++ [ev_otrl_message_receiving us (c_str a) (c_str p) (c_str s)
                         (c_str m)])) as Hrun.
  exists r, w', k, up. split; [|split; [exact Hup | exact Hall]].
  unfold otrl_message_receiving.
  unfold bind at 1, load at 1. simpl. rewrite Ha.
  unfold bind at 1, load at 1. simpl. rewrite Hp.
  unfold bind at 1, load at 1. simpl. rewrite Hs.
  unfold bind at 1, load at 1. simpl. rewrite Hm.
  unfold bind at 1, emit at 1. simpl.
  unfold bind at 1, get_world at 1. simpl.
  unfold bind at 1. rewrite Hrun.
  unfold bind at 1, put_world at 1. simpl.
  destruct (recv_newmessage r) as [plain|], (recv_tlvs r) as [|tlv chain];
    unfold bind, alloc, emit, ret; simpl;
    rewrite <- ?app_assoc; simpl; rewrite ?app_nil_r; reflexivity.
Qed.

Lemma message_entrypoint_matching (G : glirc) (L : OtrlUserState) (msg : glirc_message)
    (p0 p1 : glirc_string) (h : list cell) (w : world) (t : list event) :
  strncmp "PRIVMSG" (str (command msg)) (len (command msg)) = 0%Z ->
  params msg = [p0; p1] ->
  exists (r : receiving) (w' : world) (k : nat) (up : list event),
    message_entrypoint G L msg (@Build_state env h w t)
    = Returns
        (match recv_newmessage r with
         | Some _ => DROP_MESSAGE
         | None => if (recv_ret r =? 0)%Z then PASS_MESSAGE else DROP_MESSAGE
         end)
        (@Build_state env (h ++ replicate k Freed) w'
           (t ++ ev_otrl_message_receiving L (c_str p0) (c_str (network msg))
                   (c_str (prefix_nick msg)) (c_str p1)
              :: up
              ++ ev_otrl_message_receiving_returned (recv_ret r) (recv_newmessage r)
                   (recv_tlvs r)
              :: match recv_newmessage r with
                 | Some plain =>
                     [ev_glirc_inject_chat (network msg) (prefix_nick msg)
                        (prefix_nick msg) (c_str plain)]
                 | None => []
                 end))
    /\ Forall callback_event up
    /\ exists k0 : nat,
         forall (h0 : list cell) (w0 : world) (t0 : list event),
           run_engine ops G
             (otrl_message_receiving_impl L (c_str p0) (c_str (network msg))
                (c_str (prefix_nick msg)) (c_str p1) w)
             (@Build_state env h0 w0 t0)
           = Returns (r, w')
               (@Build_state env (h0 ++ replicate k0 Freed) w0 (t0 ++ up)).
Proof.
  intros Hcmd Hparams.
  unfold message_entrypoint, params_n, param. rewrite Hcmd, Hparams. simpl.
  unfold import_string, bind at 1 2, alloc at 1. simpl.
  unfold bind at 1 2, alloc at 1. simpl.
  unfold bind at 1 2, alloc at 1. simpl.
  unfold bind at 1 2, alloc at 1. simpl.
  rewrite !strndup_len.
  set (s := Live (Chars (c_str (prefix_nick msg)))).
  set (c0 := Live (Chars (c_str p0))).
  set (c1 := Live (Chars (c_str p1))).
  set (n := Live (Chars (c_str (network msg)))).
  destruct (otrl_message_receiving_spec L G
              (length (h ++ [s])) (length (((h ++ [s]) ++ [c0]) ++ [c1]))
              (length h) (length ((h ++ [s]) ++ [c0]))
              (c_str p0) (c_str (network msg)) (c_str (prefix_nick msg)) (c_str p1)
              ((((h ++ [s]) ++ [c0]) ++ [c1]) ++ [n]) w t)
    as (r & w' & k & up & Hcall & Hup & Hall).
  { apply (lookup_at (h ++ [s]) [c1; n]); [reflexivity | heap_shape]. }
  { apply (lookup_at (((h ++ [s]) ++ [c0]) ++ [c1]) []); [reflexivity | heap_shape]. }
  { apply (lookup_at h [c0; c1; n]); [reflexivity | heap_shape]. }
  { apply (lookup_at ((h ++ [s]) ++ [c0]) [n]); [reflexivity | heap_shape]. }
  exists r, w', (4 + k + length (match recv_newmessage r with Some _ => [tt] | None => [] end)
                 + length (match recv_tlvs r with [] => [] | _ => [tt] end)), up.
  rewrite !c_str_idem in Hall.
  split; [|split; [exact Hup | exists k; exact Hall]].
  rewrite !c_str_idem in Hcall.
  rewrite (bind_Returns _ _ _ _ _ Hcall). clear Hcall.
  set (B := ((((h ++ [s]) ++ [c0]) ++ [c1]) ++ [n]) ++ replicate k Freed).
  destruct (recv_newmessage r) as [plain|], (recv_tlvs r) as [|tlv chain]; simpl.
  - (* a plaintext, no TLV *)
    erewrite bind_Returns; cycle 1.
    { erewrite bind_Returns; cycle 1.
      { eapply (load_at B []); [reflexivity | heap_shape]. }
      reflexivity. }
    erewrite bind_Returns; cycle 1. { reflexivity. }
    erewrite bind_Returns; cycle 1.
    { eapply (release_chars_at B []); [reflexivity | heap_shape]. }
    subst B. free_inputs h.
    rewrite mk_glirc_string_strlen. apply Returns_eq; [heap_eq | trace_eq].
  - (* a plaintext and a TLV chain *)
    erewrite bind_Returns; cycle 1.
    { erewrite bind_Returns; cycle 1.
      { eapply (load_at B [_]); [reflexivity | heap_shape]. }
      reflexivity. }
    erewrite bind_Returns; cycle 1.
    { eapply (release_tlvs_at (B ++ [Live (Chars plain)]) []); [reflexivity | heap_shape]. }
    erewrite bind_Returns; cycle 1.
    { eapply (release_chars_at B [Freed]); [reflexivity | heap_shape]. }
    subst B. free_inputs h.
    rewrite mk_glirc_string_strlen. apply Returns_eq; [heap_eq | trace_eq].
  - (* nothing handed back *)
    erewrite bind_Returns; cycle 1. { reflexivity. }
    erewrite bind_Returns; cycle 1. { reflexivity. }
    erewrite bind_Returns; cycle 1. { reflexivity. }
    subst B. free_inputs h.
    destruct (recv_ret r =? 0)%Z; apply Returns_eq; solve [heap_eq | trace_eq].
  - (* a TLV chain alone *)
    erewrite bind_Returns; cycle 1. { reflexivity. }
    erewrite bind_Returns; cycle 1.
    { eapply (release_tlvs_at B []); [heap_len | heap_shape]. }
    erewrite bind_Returns; cycle 1. { reflexivity. }
    subst B. free_inputs h.
    destruct (recv_ret r =? 0)%Z; apply Returns_eq; solve [heap_eq | trace_eq].
Qed.

(** Any other message goes through untouched: nothing is allocated and
    neither the host nor the engine is called. *)
Lemma message_entrypoint_other (G : glirc) (L : OtrlUserState) (msg : glirc_message)
    (st : state) :
  (0 =? strncmp "PRIVMSG" (str (command msg)) (len (command msg)))%Z
    && (params_n msg =? 2)%nat = false ->
  message_entrypoint G L msg st = Returns PASS_MESSAGE st.
Proof. intros Hguard. unfold message_entrypoint. rewrite Hguard. reflexivity. Qed.

(** [message_entrypoint] returns on every message, and every block
    allocated on the way has been released by then. *)
Lemma message_entrypoint_settles (G : glirc) (L : OtrlUserState) (msg : glirc_message)
    (h : list cell) (w : world) (t : list event) :
  exists (r : process_result) (k : nat) (w' : world) (t' : list event),
    message_entrypoint G L msg (@Build_state env h w t)
    = Returns r (@Build_state env (h ++ replicate k Freed) w' t').
Proof.
  destruct ((0 =? strncmp "PRIVMSG" (str (command msg)) (len (command msg)))%Z
            && (params_n msg =? 2)%nat) eqn:Hguard.
  - apply andb_true_iff in Hguard as [Hcmd Hn].
    apply Z.eqb_eq in Hcmd. apply Nat.eqb_eq in Hn.
    unfold params_n in Hn.
    destruct (params msg) as [|p0 [|p1 [|p2 rest]]] eqn:Hparams; try discriminate.
    destruct (message_entrypoint_matching G L msg p0 p1 h w t (eq_sym Hcmd) Hparams)
      as (r & w' & k & up & Hrun & _).
    rewrite Hrun. eauto.
  - exists PASS_MESSAGE, 0, w, t.
    rewrite (message_entrypoint_other _ _ _ _ Hguard). simpl.
    rewrite app_nil_r. reflexivity.
Qed.

Lemma process_messages_settles (G : glirc) (L : OtrlUserState)
    (msgs : list glirc_message) (h : list cell) (w : world) (t : list event) :
  exists (rs : list process_result) (k : nat) (w' : world) (t' : list event),
    process_messages G L msgs (@Build_state env h w t)
    = Returns rs (@Build_state env (h ++ replicate k Freed) w' t')
    /\ length rs = length msgs.
Proof.
  revert h w t. induction msgs as [|msg rest IH]; intros h w t; simpl.
  - exists [], 0, w, t. simpl. rewrite app_nil_r. split; reflexivity.
  - destruct (message_entrypoint_settles G L msg h w t) as (r & k1 & w1 & t1 & H1).
    destruct (IH (h ++ replicate k1 Freed) w1 t1) as (rs & k2 & w2 & t2 & H2 & Hlen).
    exists (r :: rs), (k1 + k2), w2, t2.
    rewrite (bind_Returns _ _ _ _ _ H1), (bind_Returns _ _ _ _ _ H2).
    rewrite replicate_add, app_assoc. simpl. split; [reflexivity | congruence].
Qed.

End Inbound.

Section Outbound.
Context {env : Env}.

(** The call of the send path from [chat_entrypoint]. *)
Lemma otrl_message_sending_spec (us : OtrlUserState) (G : glirc) (me : ptr)
    (nick : option string) (pp pt pm : loc) (p tg m : string)
    (instag : otrl_instag_t) (fp : OtrlFragmentPolicy) (h : list cell) (w : world)
    (t : list event) :
  match me with
  | Some l => exists buf, h !! l = Some (Live (Chars buf)) /\ nick = Some (c_str buf)
  | None => nick = None
  end ->
  h !! pp = Some (Live (Chars p)) ->
  h !! pt = Some (Live (Chars tg)) ->
  h !! pm = Some (Live (Chars m)) ->
  exists (r : sending) (w' : world) (k : nat) (up : list event),
    otrl_message_sending us ops G me (Some pp) (Some pt) instag (Some pm) fp
      (@Build_state env h w t)
    = Returns
        (send_err r,
         match send_newmsg r with
         | Some _ => Some (length (h ++ replicate k Freed))
         | None => None
         end)
        (@Build_state env
           ((h ++ replicate k Freed)
            ++ match send_newmsg r with
               | Some text => [Live (Chars text)]
               | None => []
               end)
           w'
           (t ++ ev_otrl_message_sending us nick (c_str p) (c_str tg) instag (c_str m) fp
              :: up
              ++ [ev_otrl_message_sending_returned (send_err r) (send_newmsg r)]))
    /\ Forall callback_event up
    /\ forall (h0 : list cell) (w0 : world) (t0 : list event),
         run_engine ops G
           (otrl_message_sending_impl us nick (c_str p) (c_str tg) instag (c_str m) fp w)
           (@Build_state env h0 w0 t0)
         = Returns (r, w') (@Build_state env (h0 ++ replicate k Freed) w0 (t0 ++ up)).
Proof.
  intros Hme Hp Ht Hm.
  destruct (run_engine_ops_uniform
              (otrl_message_sending_impl us nick (c_str p) (c_str tg) instag (c_str m) fp w)
              G)
    as ([r w'] & k & up & Hup & Hall).
  pose proof (Hall h w
                (t ++ [ev_otrl_message_sending us nick (c_str p) (c_str tg) instag
                         (c_str m) fp])) as Hrun.
  exists r, w', k, up. split; [|split; [exact Hup | exact Hall]].
  unfold otrl_message_sending.
  erewrite bind_Returns with (a := nick); cycle 1.
  { destruct me as [l|].
    - destruct Hme as (buf & Hbuf & ->).
      unfold bind, load. simpl. rewrite Hbuf. reflexivity.
    - subst nick. reflexivity. }
  unfold bind at 1, load at 1. simpl. rewrite Hp.
  unfold bind at 1, load at 1. simpl. rewrite Ht.
  unfold bind at 1, load at 1. simpl. rewrite Hm.
  unfold bind at 1, emit at 1. simpl.
  unfold bind at 1, get_world at 1. simpl.
  unfold bind at 1. rewrite Hrun.
  unfold bind at 1, put_world at 1. simpl.
  destruct (send_newmsg r) as [text|];
    unfold bind, alloc, emit, ret; simpl;
    rewrite <- ?app_assoc; simpl; rewrite ?app_nil_r; reflexivity.
Qed.

(** What [chat_entrypoint] does on every outgoing chat event, in terms of
    what the send path handed back. *)
Lemma chat_entrypoint_spec (G : glirc) (L : OtrlUserState) (chat : glirc_chat)
    (h : list cell) (w : world) (t : list event) :
  exists (r : sending) (w' : world) (k : nat) (up : list event),
    chat_entrypoint G L chat (@Build_state env h w t)
    = Returns
        (match send_newmsg r with
         | Some _ => DROP_MESSAGE
         | None => if (send_err r =? 0)%Z then PASS_MESSAGE else DROP_MESSAGE
         end)
        (@Build_state env (h ++ replicate k Freed) w'
           (t ++ ev_glirc_my_nick (chat_network chat)
              :: ev_otrl_message_sending L
                   (option_map c_str (glirc_my_nick_impl G (chat_network chat) w))
                   (c_str (chat_network chat)) (c_str (chat_target chat))
                   OTRL_INSTAG_BEST (c_str (chat_message chat)) OTRL_FRAGMENT_SEND_ALL
              :: up
              ++ ev_otrl_message_sending_returned (send_err r) (send_newmsg r)
              :: match send_newmsg r with
                 | Some _ => []
                 | None =>
                     if (send_err r =? 0)%Z then []
                     else [ev_glirc_print ERROR_MESSAGE "PANIC: OTR encryption error"]
                 end))
    /\ Forall callback_event up
    /\ exists k0 : nat,
         forall (h0 : list cell) (w0 : world) (t0 : list event),
           run_engine ops G
             (otrl_message_sending_impl L
                (option_map c_str (glirc_my_nick_impl G (chat_network chat) w))
                (c_str (chat_network chat)) (c_str (chat_target chat))
                OTRL_INSTAG_BEST (c_str (chat_message chat)) OTRL_FRAGMENT_SEND_ALL w)
             (@Build_state env h0 w0 t0)
           = Returns (r, w')
               (@Build_state env (h0 ++ replicate k0 Freed) w0 (t0 ++ up)).
Proof.
  unfold chat_entrypoint.
  unfold import_string, bind at 1 2, alloc at 1. simpl.
  unfold bind at 1 2, alloc at 1. simpl.
  unfold bind at 1 2, alloc at 1. simpl.
  rewrite !strndup_len.
  set (cn := Live (Chars (c_str (chat_network chat)))).
  set (ct := Live (Chars (c_str (chat_target chat)))).
  set (cm := Live (Chars (c_str (chat_message chat)))).
  unfold glirc_my_nick, bind at 1 2, emit at 1. simpl.
  unfold bind at 1 2, get_world at 1. simpl.
  destruct (glirc_my_nick_impl G (chat_network chat) w) as [nick|]; simpl.
  - (* the host knows the nick: a fourth buffer *)
    set (cme := Live (Chars (c_str nick))).
    destruct (otrl_message_sending_spec L G
                (Some (length (((h ++ [cn]) ++ [ct]) ++ [cm]))) (Some (c_str nick))
                (length h) (length (h ++ [cn])) (length ((h ++ [cn]) ++ [ct]))
                (c_str (chat_network chat)) (c_str (chat_target chat))
                (c_str (chat_message chat)) OTRL_INSTAG_BEST OTRL_FRAGMENT_SEND_ALL
                ((((h ++ [cn]) ++ [ct]) ++ [cm]) ++ [cme]) w
                (t ++ [ev_glirc_my_nick (chat_network chat)]))
      as (r & w' & k & up & Hcall & Hup & Hall).
    { exists (c_str nick). split; [|rewrite c_str_idem; reflexivity].
      apply (lookup_at (((h ++ [cn]) ++ [ct]) ++ [cm]) []); [reflexivity | heap_shape]. }
    { apply (lookup_at h [ct; cm; cme]); [reflexivity | heap_shape]. }
    { apply (lookup_at (h ++ [cn]) [cm; cme]); [reflexivity | heap_shape]. }
    { apply (lookup_at ((h ++ [cn]) ++ [ct]) [cme]); [reflexivity | heap_shape]. }
    exists r, w', (4 + k + length (match send_newmsg r with Some _ => [tt] | None => [] end)), up.
    rewrite !c_str_idem in Hall.
    split; [|split; [exact Hup | exists k; exact Hall]].
    rewrite !c_str_idem in Hcall.
    rewrite (bind_Returns _ _ _ _ _ Hcall). clear Hcall.
    erewrite bind_Returns; cycle 1.
    { eapply (release_chars_at (h ++ [cn; ct])); [heap_len | heap_shape]. }
    erewrite bind_Returns; cycle 1.
    { eapply (release_chars_at (h ++ [cn])); [heap_len | heap_shape]. }
    erewrite bind_Returns; cycle 1.
    { eapply (release_chars_at h); [heap_len | heap_shape]. }
    erewrite bind_Returns; cycle 1.
    { eapply (release_chars_at (h ++ [Freed; Freed; Freed])); [heap_len | heap_shape]. }
    destruct (send_newmsg r) as [text|]; simpl.
    + erewrite bind_Returns; cycle 1.
      { eapply (release_chars_at (h ++ [Freed; Freed; Freed; Freed] ++ replicate k Freed) []);
          [heap_len | heap_shape]. }
      apply Returns_eq; [heap_eq | trace_eq].
    + destruct (send_err r =? 0)%Z; simpl.
      * apply Returns_eq; [heap_eq | trace_eq].
      * erewrite bind_Returns; cycle 1. { reflexivity. }
        apply Returns_eq; [heap_eq | trace_eq].
  - (* no nick: the account name is the null pointer *)
    destruct (otrl_message_sending_spec L G None None
                (length h) (length (h ++ [cn])) (length ((h ++ [cn]) ++ [ct]))
                (c_str (chat_network chat)) (c_str (chat_target chat))
                (c_str (chat_message chat)) OTRL_INSTAG_BEST OTRL_FRAGMENT_SEND_ALL
                (((h ++ [cn]) ++ [ct]) ++ [cm]) w
                (t ++ [ev_glirc_my_nick (chat_network chat)]))
      as (r & w' & k & up & Hcall & Hup & Hall).
    { reflexivity. }
    { apply (lookup_at h [ct; cm]); [reflexivity | heap_shape]. }
    { apply (lookup_at (h ++ [cn]) [cm]); [reflexivity | heap_shape]. }
    { apply (lookup_at ((h ++ [cn]) ++ [ct]) []); [reflexivity | heap_shape]. }
    exists r, w', (3 + k + length (match send_newmsg r with Some _ => [tt] | None => [] end)), up.
    rewrite !c_str_idem in Hall.
    split; [|split; [exact Hup | exists k; exact Hall]].
    rewrite !c_str_idem in Hcall.
    rewrite (bind_Returns _ _ _ _ _ Hcall). clear Hcall.
    erewrite bind_Returns; cycle 1.
    { eapply (release_chars_at (h ++ [cn; ct])); [heap_len | heap_shape]. }
    erewrite bind_Returns; cycle 1.
    { eapply (release_chars_at (h ++ [cn])); [heap_len | heap_shape]. }
    erewrite bind_Returns; cycle 1.
    { eapply (release_chars_at h); [heap_len | heap_shape]. }
    erewrite bind_Returns; cycle 1. { reflexivity. }
    destruct (send_newmsg r) as [text|]; simpl.
    + erewrite bind_Returns; cycle 1.
      { eapply (release_chars_at (h ++ [Freed; Freed; Freed] ++ replicate k Freed) []);
          [heap_len | heap_shape]. }
      apply Returns_eq; [heap_eq | trace_eq].
    + destruct (send_err r =? 0)%Z; simpl.
      * apply Returns_eq; [heap_eq | trace_eq].
      * erewrite bind_Returns; cycle 1. { reflexivity. }
        apply Returns_eq; [heap_eq | trace_eq].
Qed.

End Outbound.

(** ** The guard of [message_entrypoint] *)

(** [strncmp] with the length of its second argument as bound cannot tell
    the first argument from a prefix of it. *)
Lemma strncmp_prefix (s1 s2 : string) :
  String.prefix s2 s1 = true -> strncmp s1 s2 (String.length s2) = 0%Z.
Proof.
  revert s1. induction s2 as [|c rest IH]; intros s1 Hpre; simpl; [reflexivity|].
  destruct s1 as [|c' rest']; simpl in Hpre; [discriminate|].
  destruct (ascii_dec c c') as [->|Hne]; [|discriminate].
  simpl. rewrite Ascii.eqb_refl. simpl.
  destruct (Ascii.eqb c' NUL); [reflexivity | apply IH; exact Hpre].
Qed.

(** So every command that is a prefix of "PRIVMSG" passes the guard: with
    two parameters, the message is handed to the receive path of the engine,
    whatever the engine and the host are. *)
Lemma message_entrypoint_accepts_prefix {env : Env} (G : glirc) (L : OtrlUserState)
    (msg : glirc_message) (p0 p1 : glirc_string) (st : state) :
  String.prefix (command msg) "PRIVMSG" = true ->
  params msg = [p0; p1] ->
  exists (r : process_result) (st' : state),
    message_entrypoint G L msg st = Returns r st'
    /\ In (ev_otrl_message_receiving L (c_str p0) (c_str (network msg))
             (c_str (prefix_nick msg)) (c_str p1))
         (trace st').
Proof.
  intros Hpre Hparams. destruct st as [h w t].
  destruct (message_entrypoint_matching G L msg p0 p1 h w t) as
    (r & w' & k & up & Hrun & _).
  { apply strncmp_prefix. exact Hpre. }
  { exact Hparams. }
  eexists _, _. split; [exact Hrun|]. simpl.
  apply in_or_app. right. left. reflexivity.
Qed.

(** * The claims *)

Section Claims.
Context {env : Env}.

(** C9: for every context (and every host handle and state) the
    [max_message_size] callback, which the table binds to [op_max_message],
    returns 400 and changes nothing. *)
Theorem op_max_message_is_400 (opdata : glirc) (context : ConnContext) (st : state) :
  op_max_message opdata context st = Returns 400%Z st
  /\ max_message_size ops opdata context st = Returns 400%Z st.
Proof. split; reflexivity. Qed.

(** C5: the text [op_inject] hands to the host's outbound primitive is the
    C string at [message] with every newline replaced by a space and every
    other byte as it was: it has the same length, it holds no newline, and it
    is the only text handed over, so the replacement is done by the time of
    the handoff. *)
Theorem op_inject_scrubs_newlines (G : glirc) (accountname protocol recipient : string)
    (message : loc) (buf : string) (st : state) :
  heap st !! message = Some (Live (Chars buf)) ->
  exists (m : glirc_message) (sent : glirc_string) (st' : state),
    op_inject G accountname protocol recipient (Some message) st = Returns tt st'
    /\ trace st' = trace st ++ [ev_glirc_send_message m]
    /\ params m !! 1 = Some sent
    /\ sent = map_bytes newline_to_space (c_str buf)
    /\ (forall i : nat,
          String.get i sent = option_map newline_to_space (String.get i (c_str buf)))
    /\ len sent = strlen buf
    /\ count_byte newline sent = 0.
Proof.
  intros Hbuf.
  eexists _, (map_bytes newline_to_space (c_str buf)), _.
  split; [apply (op_inject_spec G accountname protocol recipient message buf st Hbuf)|].
  simpl. repeat split.
  - intros i. apply get_map_bytes.
  - unfold len. rewrite length_map_bytes, strlen_c_str. reflexivity.
  - apply no_newline_scrubbed.
Qed.

(** C10: what [op_inject] sends is a message with the command "PRIVMSG" and
    exactly two parameters, the recipient and the scrubbed text, on the
    network named by the protocol argument; the buffer of the caller, like
    every other cell of the heap, is as it was, the copy that was scrubbed
    being a cell of its own that is released. *)
Theorem op_inject_sends_privmsg (G : glirc) (accountname protocol recipient : string)
    (message : loc) (buf : string) (st : state) :
  heap st !! message = Some (Live (Chars buf)) ->
  exists (m : glirc_message) (st' : state),
    op_inject G accountname protocol recipient (Some message) st = Returns tt st'
    /\ trace st' = trace st ++ [ev_glirc_send_message m]
    /\ network m = c_str protocol
    /\ command m = "PRIVMSG"
    /\ params m = [c_str recipient; map_bytes newline_to_space (c_str buf)]
    /\ params_n m = 2
    /\ heap st' !! message = Some (Live (Chars buf))
    /\ heap st' = heap st ++ [Freed].
Proof.
  intros Hbuf. eexists _, _.
  split; [apply (op_inject_spec G accountname protocol recipient message buf st Hbuf)|].
  simpl. repeat split.
  apply lookup_app_l_Some. exact Hbuf.
Qed.

(** C3: on a "PRIVMSG" with two parameters the receive path of the engine is
    called once, with the user state of the host and the C strings of target,
    network, sender and text, and what that run of the engine hands back (its
    return value [recv_ret r] and its plaintext [recv_newmessage r]) decides:
    with a plaintext, the plaintext is shown as a chat line from the sender
    and the result is [DROP_MESSAGE]; with no plaintext and a nonzero return
    value the result is [DROP_MESSAGE] and nothing is shown; with neither
    the result is [PASS_MESSAGE].  The run of the engine is named by its own
    equation: it gives the same result and the same callback events [up] in
    whatever state it starts. *)
Theorem message_entrypoint_decision (G : glirc) (L : OtrlUserState) (msg : glirc_message)
    (target text : glirc_string) (st st0 st0' : state) (r : receiving) (w' : world) :
  command msg = "PRIVMSG" ->
  params msg = [target; text] ->
  run_engine ops G
    (otrl_message_receiving_impl L (c_str target) (c_str (network msg))
       (c_str (prefix_nick msg)) (c_str text) (the_world st))
    st0
  = Returns (r, w') st0' ->
  exists (up : list event) (st' : state),
    trace st0' = trace st0 ++ up
    /\ Forall callback_event up
    /\ the_world st' = w'
    /\ match recv_newmessage r with
       | Some plain =>
           message_entrypoint G L msg st = Returns DROP_MESSAGE st'
           /\ trace st' =
                trace st
                ++ ev_otrl_message_receiving L (c_str target) (c_str (network msg))
                     (c_str (prefix_nick msg)) (c_str text)
                :: up
                ++ [ev_otrl_message_receiving_returned (recv_ret r) (Some plain)
                      (recv_tlvs r);
                    ev_glirc_inject_chat (network msg) (prefix_nick msg)
                      (prefix_nick msg) (c_str plain)]
       | None =>
           message_entrypoint G L msg st
           = Returns (if (recv_ret r =? 0)%Z then PASS_MESSAGE else DROP_MESSAGE) st'
           /\ trace st' =
                trace st
                ++ ev_otrl_message_receiving L (c_str target) (c_str (network msg))
                     (c_str (prefix_nick msg)) (c_str text)
                :: up
                ++ [ev_otrl_message_receiving_returned (recv_ret r) None (recv_tlvs r)]
       end.
Proof.
  intros Hcmd Hparams Hengine.
  destruct st as [h w t]. destruct st0 as [h0 w0 t0]. simpl in Hengine.
  destruct (message_entrypoint_matching G L msg target text h w t) as
    (r1 & w1 & k & up & Hrun & Hup & k0 & Hall).
  { rewrite Hcmd. reflexivity. }
  { exact Hparams. }
  rewrite (Hall h0 w0 t0) in Hengine.
  injection Hengine as -> -> <-.
  exists up.
  destruct (recv_newmessage r) as [plain|]; eexists;
    (split; [reflexivity|]); (split; [exact Hup|]);
    (split; [|split; [exact Hrun|]]); reflexivity.
Qed.

(** C8: [message_entrypoint] returns on every message, and so does a whole
    sequence of them; afterwards the heap is the heap of before followed by
    cells that are all released.  So each copy made of the input and each
    block the engine handed over was released, once (a second release is a
    fault, and there is none), and the live blocks are those of before. *)
Theorem inbound_releases_everything (G : glirc) (L : OtrlUserState)
    (msgs : list glirc_message) (st : state) :
  exists (rs : list process_result) (k : nat) (st' : state),
    process_messages G L msgs st = Returns rs st'
    /\ length rs = length msgs
    /\ heap st' = heap st ++ replicate k Freed
    /\ live (heap st') = live (heap st).
Proof.
  destruct st as [h w t].
  destruct (process_messages_settles G L msgs h w t) as (rs & k & w' & t' & Hrun & Hlen).
  exists rs, k. eexists. split; [exact Hrun|]. simpl.
  split; [exact Hlen|]. split; [reflexivity | apply live_settled].
Qed.

(** C4: on every outgoing chat event the send path of the engine is called
    once, with the nick the host knows for the network and the C strings of
    network, target and message, and what that run of the engine hands back
    decides: with a replacement ([send_newmsg r] not null) the result is
    [DROP_MESSAGE]; with neither a replacement nor an error code the result
    is [PASS_MESSAGE] and the extension does nothing more.  The run of the
    engine is named by its own equation: it gives the same result and the
    same callback events [up] in whatever state it starts. *)
Theorem chat_entrypoint_decision (G : glirc) (L : OtrlUserState) (chat : glirc_chat)
    (st st0 st0' : state) (r : sending) (w' : world) :
  run_engine ops G
    (otrl_message_sending_impl L
       (option_map c_str (glirc_my_nick_impl G (chat_network chat) (the_world st)))
       (c_str (chat_network chat)) (c_str (chat_target chat))
       OTRL_INSTAG_BEST (c_str (chat_message chat)) OTRL_FRAGMENT_SEND_ALL
       (the_world st))
    st0
  = Returns (r, w') st0' ->
  exists (up own : list event) (res : process_result) (st' : state),
    chat_entrypoint G L chat st = Returns res st'
    /\ trace st0' = trace st0 ++ up
    /\ Forall callback_event up
    /\ the_world st' = w'
    /\ trace st' =
         trace st
         ++ ev_glirc_my_nick (chat_network chat)
         :: ev_otrl_message_sending L
              (option_map c_str (glirc_my_nick_impl G (chat_network chat) (the_world st)))
              (c_str (chat_network chat)) (c_str (chat_target chat))
              OTRL_INSTAG_BEST (c_str (chat_message chat)) OTRL_FRAGMENT_SEND_ALL
         :: up
         ++ ev_otrl_message_sending_returned (send_err r) (send_newmsg r)
         :: own
    /\ (send_newmsg r <> None -> res = DROP_MESSAGE)
    /\ (send_newmsg r = None -> send_err r = 0%Z -> res = PASS_MESSAGE /\ own = []).
Proof.
  intros Hengine.
  destruct st as [h w t]. destruct st0 as [h0 w0 t0]. simpl in Hengine.
  destruct (chat_entrypoint_spec G L chat h w t) as
    (r1 & w1 & k & up & Hrun & Hup & k0 & Hall).
  rewrite (Hall h0 w0 t0) in Hengine.
  injection Hengine as -> -> <-.
  exists up. eexists. eexists _, _. split; [exact Hrun|]. simpl.
  split; [reflexivity|]. split; [exact Hup|]. split; [reflexivity|].
  split; [reflexivity|].
  destruct (send_newmsg r) as [text|]; split; try congruence.
  intros _ ->. split; reflexivity.
Qed.

(** C2, as amended: on every outgoing chat event for which that run of the
    send path reports a nonzero error code the result is [DROP_MESSAGE], and
    every block allocated on the way, a replacement included, is released.
    After the send path is back the extension shows the notification
    "PANIC: OTR encryption error", once, when no replacement came with the
    error, and nothing when one came; what the engine itself showed through
    the callbacks while it ran ([up]) comes before. *)
Theorem chat_entrypoint_error_drops (G : glirc) (L : OtrlUserState) (chat : glirc_chat)
    (st st0 st0' : state) (r : sending) (w' : world) :
  run_engine ops G
    (otrl_message_sending_impl L
       (option_map c_str (glirc_my_nick_impl G (chat_network chat) (the_world st)))
       (c_str (chat_network chat)) (c_str (chat_target chat))
       OTRL_INSTAG_BEST (c_str (chat_message chat)) OTRL_FRAGMENT_SEND_ALL
       (the_world st))
    st0
  = Returns (r, w') st0' ->
  send_err r <> 0%Z ->
  exists (up : list event) (k : nat) (st' : state),
    chat_entrypoint G L chat st = Returns DROP_MESSAGE st'
    /\ trace st0' = trace st0 ++ up
    /\ Forall callback_event up
    /\ the_world st' = w'
    /\ heap st' = heap st ++ replicate k Freed
    /\ trace st' =
         trace st
         ++ ev_glirc_my_nick (chat_network chat)
         :: ev_otrl_message_sending L
              (option_map c_str (glirc_my_nick_impl G (chat_network chat) (the_world st)))
              (c_str (chat_network chat)) (c_str (chat_target chat))
              OTRL_INSTAG_BEST (c_str (chat_message chat)) OTRL_FRAGMENT_SEND_ALL
         :: up
         ++ ev_otrl_message_sending_returned (send_err r) (send_newmsg r)
         :: match send_newmsg r with
            | None => [ev_glirc_print ERROR_MESSAGE "PANIC: OTR encryption error"]
            | Some _ => []
            end.
Proof.
  intros Hengine Herr.
  destruct st as [h w t]. destruct st0 as [h0 w0 t0]. simpl in Hengine.
  destruct (chat_entrypoint_spec G L chat h w t) as
    (r1 & w1 & k & up & Hrun & Hup & k0 & Hall).
  rewrite (Hall h0 w0 t0) in Hengine.
  injection Hengine as -> -> <-.
  apply Z.eqb_neq in Herr. rewrite Herr in Hrun.
  exists up, k.
  destruct (send_newmsg r) as [text|]; eexists; (split; [exact Hrun|]); simpl;
    (split; [reflexivity|]); (split; [exact Hup|]); repeat split.
Qed.

End Claims.

Section Startup.
Context {env : Env}.

(** What [start_entrypoint] does when the key-file path fits its buffer and
    the initialisation of the engine returns. *)
Lemma start_entrypoint_spec (G : glirc) (path dir : string) (h : list cell)
    (w w1 : world) (t : list event) :
  dirname_r_impl (c_str path) = Some dir ->
  strlen dir + 9 <= PATH_MAX ->
  OTRL_INIT_impl w = Some w1 ->
  start_entrypoint G path (@Build_state env h w t)
  = let us := fst (otrl_userstate_create_impl w1) in
    let w2 := snd (otrl_userstate_create_impl w1) in
    let keyfile := (c_str dir ++ "/keyfile")%string in
    let err := fst (otrl_privkey_generate_impl us keyfile "glguy" "elis.local" w2) in
    let w3 := snd (otrl_privkey_generate_impl us keyfile "glguy" "elis.local" w2) in
    Returns us
      (@Build_state env h w3
         (t ++ [ev_OTRL_INIT; ev_otrl_userstate_create us;
                ev_otrl_privkey_generate us keyfile "glguy" "elis.local" err])).
Proof.
  intros Hdir Hfit Hinit.
  unfold start_entrypoint. rewrite Hdir.
  unfold strcat_into. rewrite strlen_c_str_idem.
  replace (strlen dir + strlen "/keyfile" + 1 <=? PATH_MAX)%nat with true
    by (symmetry; apply Nat.leb_le; simpl; lia).
  unfold strcat. simpl c_str. rewrite c_str_idem.
  change (c_str dir ++ "/keyfile")%string with (c_str dir ++ c_str "/keyfile")%string.
  cbv beta iota zeta delta
    [bind ret OTRL_INIT otrl_userstate_create otrl_privkey_generate emit get_world
     put_world heap the_world trace].
  rewrite Hinit. rewrite c_str_app. simpl c_str.
  destruct (otrl_userstate_create_impl w1) as [us w2]. simpl.
  destruct (otrl_privkey_generate_impl us (c_str dir ++ "/keyfile") "glguy" "elis.local" w2)
    as [err w3]. simpl.
  rewrite <- !app_assoc. reflexivity.
Qed.

(** C7, as amended: [start_entrypoint] takes the directory of its path
    argument, appends "/keyfile", runs [OTRL_INIT], creates a user state and
    then asks the engine to generate a key into that file for the account
    "glguy" and the protocol "elis.local".  These are its three calls, in
    this order, whatever the file system holds: the request to generate
    does not depend on a key file being there, and it never asks for a key
    to be loaded. *)
Theorem start_entrypoint_calls (G : glirc) (path dir : string) (st : state)
    (w1 : world) :
  dirname_r_impl (c_str path) = Some dir ->
  strlen dir + 9 <= PATH_MAX ->
  OTRL_INIT_impl (the_world st) = Some w1 ->
  exists (us : OtrlUserState) (err : gcry_error_t) (st' : state),
    start_entrypoint G path st = Returns us st'
    /\ trace st' =
         trace st
         ++ [ev_OTRL_INIT;
             ev_otrl_userstate_create us;
             ev_otrl_privkey_generate us (c_str dir ++ "/keyfile")%string
               "glguy" "elis.local" err].
Proof.
  intros Hdir Hfit Hinit. destruct st as [h w t]. simpl in Hinit.
  rewrite (start_entrypoint_spec G path dir h w w1 t Hdir Hfit Hinit).
  eexists _, _, _. split; reflexivity.
Qed.

(** C6, as amended: [start_entrypoint] does not look at the error code of
    the key generation.  Whatever the engine answers, an error included, it
    returns the user state it created, with the world as the engine left it
    and the heap as it was. *)
Theorem start_entrypoint_ignores_key_error (G : glirc) (path dir : string) (st : state)
    (w1 w2 w3 : world) (us : OtrlUserState) (err : gcry_error_t) :
  dirname_r_impl (c_str path) = Some dir ->
  strlen dir + 9 <= PATH_MAX ->
  OTRL_INIT_impl (the_world st) = Some w1 ->
  otrl_userstate_create_impl w1 = (us, w2) ->
  otrl_privkey_generate_impl us (c_str dir ++ "/keyfile")%string "glguy" "elis.local" w2
    = (err, w3) ->
  exists st' : state,
    start_entrypoint G path st = Returns us st'
    /\ heap st' = heap st
    /\ the_world st' = w3
    /\ In (ev_otrl_privkey_generate us (c_str dir ++ "/keyfile")%string
             "glguy" "elis.local" err) (trace st').
Proof.
  intros Hdir Hfit Hinit Hcreate Hgen. destruct st as [h w t]. simpl in Hinit.
  rewrite (start_entrypoint_spec G path dir h w w1 t Hdir Hfit Hinit).
  rewrite Hcreate. simpl. rewrite Hgen. simpl.
  eexists. split; [reflexivity|]. simpl. repeat split.
  apply in_or_app. right. simpl. auto.
Qed.

End Startup.

(** * On the test double *)

Section OnTheTestDouble.
Import TestDouble.

(** C1: a received message whose command is "PRIV", which is not "PRIVMSG",
    with two parameters is handed to the receive path of the engine all the
    same, and here the result is [DROP_MESSAGE], not [PASS_MESSAGE]: the
    comparison stops at the length of the command received. *)
Theorem message_entrypoint_takes_PRIV_for_PRIVMSG :
  command (priv "bob" "glguy" "?OTR:hello") <> "PRIVMSG"
  /\ params_n (priv "bob" "glguy" "?OTR:hello") = 2
  /\ strncmp "PRIVMSG" (str "PRIV") (len "PRIV") = 0%Z
  /\ exists st' : state,
       message_entrypoint (env := test_env) tt 0 (priv "bob" "glguy" "?OTR:hello") st1
       = Returns DROP_MESSAGE st'
       /\ filter receive_call (trace st')
          = [ev_otrl_message_receiving (env := test_env) 0 "glguy" "libera" "bob"
               "?OTR:hello"].
Proof.
  split; [discriminate|]. split; [reflexivity|]. split; [reflexivity|].
  eexists. split; vm_compute; reflexivity.
Qed.

(** C2, counterexample: the send path reports an error and leaves the
    unfragmented message in place; the result is [DROP_MESSAGE] and no
    notification at all is shown. *)
Lemma chat_error_with_replacement_is_silent :
  exists st' : state,
    chat_entrypoint (env := test_env) tt 0 (chat_to "alice" long_text) st1
    = Returns DROP_MESSAGE st'
    /\ In (ev_otrl_message_sending_returned (env := test_env) GPG_ERR_ENOMEM
             (Some ("?OTR:" ++ long_text)%string))
         (trace st')
    /\ GPG_ERR_ENOMEM <> 0%Z
    /\ filter notification (trace st') = [].
Proof.
  eexists. split; [vm_compute; reflexivity|].
  split; [vm_compute; auto|]. split; [discriminate | reflexivity].
Qed.

(** C6, counterexample: the key file cannot be written and no key is
    generated, yet the start returns a user state. *)
Lemma start_returns_handle_without_key :
  exists st' : state,
    start_entrypoint (env := test_env) tt "/usr/lib/glirc/otr.dylib" st0 = Returns 0 st'
    /\ In (ev_otrl_privkey_generate (env := test_env) 0 "/usr/lib/glirc/keyfile"
             "glguy" "elis.local" GPG_ERR_EACCES)
         (trace st')
    /\ GPG_ERR_EACCES <> 0%Z
    /\ lookup_string "/usr/lib/glirc/keyfile" (key_files (the_world st')) = None.
Proof.
  eexists. split; [vm_compute; reflexivity|].
  split; [vm_compute; auto|]. split; [discriminate | reflexivity].
Qed.

(** C7, counterexample: the key file is there, holding key 1; the start
    asks for a key to be generated all the same, and the file then holds
    key 2. *)
Lemma start_generates_over_existing_key :
  lookup_string "/home/u/.glirc/keyfile" (key_files (the_world st0)) = Some 1
  /\ exists st' : state,
       start_entrypoint (env := test_env) tt "/home/u/.glirc/otr.so" st0 = Returns 0 st'
       /\ In (ev_otrl_privkey_generate (env := test_env) 0 "/home/u/.glirc/keyfile"
                "glguy" "elis.local" 0%Z)
            (trace st')
       /\ lookup_string "/home/u/.glirc/keyfile" (key_files (the_world st')) = Some 2.
Proof.
  split; [reflexivity|].
  eexists. split; [vm_compute; reflexivity|].
  split; [vm_compute; auto | reflexivity].
Qed.

(** C3 on a message that decrypts: the plaintext is shown as a line of the
    sender and the raw line is dropped. *)
Lemma message_entrypoint_decision_witness :
  command (privmsg "alice" "glguy" "?OTR:hello") = "PRIVMSG"
  /\ params (privmsg "alice" "glguy" "?OTR:hello") = ["glguy"; "?OTR:hello"]
  /\ exists st' : state,
       message_entrypoint (env := test_env) tt 0 (privmsg "alice" "glguy" "?OTR:hello") st1
       = Returns DROP_MESSAGE st'
       /\ filter chat_line (trace st')
          = [ev_glirc_inject_chat (env := test_env) "libera" "alice" "alice" "hello"].
Proof.
  split; [reflexivity|]. split; [reflexivity|].
  assert (Hengine :
            run_engine (env := test_env) ops tt
              (receive 0 "glguy" "libera" "alice" "?OTR:hello" w1) st1
            = Returns ({| recv_ret := 0%Z; recv_newmessage := Some "hello";
                          recv_tlvs := [ {| tlv_type := 0%Z; tlv_data := "" |} ] |}, w1)
                st1)
    by reflexivity.
  destruct (message_entrypoint_decision (env := test_env) tt 0
              (privmsg "alice" "glguy" "?OTR:hello") "glguy" "?OTR:hello" st1 st1 st1
              _ _ eq_refl eq_refl Hengine)
    as (up & st' & _ & _ & _ & Hrun & _).
  exists st'. split; [exact Hrun|].
  vm_compute in Hrun. injection Hrun as <-. reflexivity.
Defined.

(** C4 on a line typed to a peer without a session: it goes out as it is. *)
Lemma chat_entrypoint_decision_witness :
  exists st' : state,
    chat_entrypoint (env := test_env) tt 0 (chat_to "bob" "hello") st1
    = Returns PASS_MESSAGE st'
    /\ filter notification (trace st') = [].
Proof.
  assert (Hengine :
            run_engine (env := test_env) ops tt
              (send 0 (Some "glguy") "libera" "bob" 1%Z "hello" OTRL_FRAGMENT_SEND_ALL w1)
              st1
            = Returns ({| send_err := 0%Z; send_newmsg := None |}, w1) st1)
    by reflexivity.
  destruct (chat_entrypoint_decision (env := test_env) tt 0 (chat_to "bob" "hello")
              st1 st1 st1 _ _ Hengine)
    as (up & own & res & st' & Hrun & _ & _ & _ & _ & _ & Hpass).
  destruct (Hpass eq_refl eq_refl) as [-> _].
  exists st'. split; [exact Hrun|].
  vm_compute in Hrun. injection Hrun as <-. reflexivity.
Defined.

(** C2, as amended, on a line typed on a network the host has no nick for:
    the engine refuses the null account name, the line is dropped and the
    notification is shown once. *)
Lemma chat_entrypoint_error_drops_witness :
  GPG_ERR_INV_VALUE <> 0%Z
  /\ exists st' : state,
       chat_entrypoint (env := test_env) tt 0
         {| chat_network := "oftc"; chat_target := "alice"; chat_message := "hello" |}
         st1
       = Returns DROP_MESSAGE st'
       /\ filter notification (trace st')
          = [ev_glirc_print (env := test_env) ERROR_MESSAGE "PANIC: OTR encryption error"].
Proof.
  assert (Herr : GPG_ERR_INV_VALUE <> 0%Z) by discriminate.
  split; [exact Herr|].
  assert (Hengine :
            run_engine (env := test_env) ops tt
              (send 0 None "oftc" "alice" 1%Z "hello" OTRL_FRAGMENT_SEND_ALL w1) st1
            = Returns ({| send_err := GPG_ERR_INV_VALUE; send_newmsg := None |}, w1) st1)
    by reflexivity.
  destruct (chat_entrypoint_error_drops (env := test_env) tt 0
              {| chat_network := "oftc"; chat_target := "alice"; chat_message := "hello" |}
              st1 st1 st1 _ _ Hengine Herr)
    as (up & k & st' & Hrun & _).
  exists st'. split; [exact Hrun|].
  vm_compute in Hrun. injection Hrun as <-. reflexivity.
Defined.

(** C5 on the handshake message of the test double, which has two lines. *)
Lemma op_inject_scrubs_newlines_witness :
  heap st_buf !! 0 = Some (Live (Chars handshake))
  /\ count_byte newline handshake = 1
  /\ exists st' : state,
       op_inject (env := test_env) tt "glguy" "libera" "bob" (Some 0) st_buf
       = Returns tt st'
       /\ trace st'
          = [ev_glirc_send_message (env := test_env)
               {| network := "libera"; prefix_nick := ""; command := "PRIVMSG";
                  params := ["bob"; "?OTR:AAMC commit"] |}].
Proof.
  split; [reflexivity|]. split; [reflexivity|].
  destruct (op_inject_scrubs_newlines (env := test_env) tt "glguy" "libera" "bob"
              0 handshake st_buf eq_refl)
    as (m & sent & st' & Hrun & _).
  exists st'. vm_compute in Hrun. injection Hrun as <-.
  split; vm_compute; reflexivity.
Defined.

(** C10 on the same call: the buffer of the engine still holds the two
    lines. *)
Lemma op_inject_sends_privmsg_witness :
  heap st_buf !! 0 = Some (Live (Chars handshake))
  /\ exists st' : state,
       op_inject (env := test_env) tt "glguy" "libera" "bob" (Some 0) st_buf
       = Returns tt st'
       /\ heap st' = [Live (Chars handshake); Freed].
Proof.
  split; [reflexivity|].
  destruct (op_inject_sends_privmsg (env := test_env) tt "glguy" "libera" "bob"
              0 handshake st_buf eq_refl)
    as (m & st' & Hrun & _).
  exists st'. vm_compute in Hrun. injection Hrun as <-.
  split; vm_compute; reflexivity.
Defined.

(** C7, as amended, on a start next to an existing key file. *)
Lemma start_entrypoint_calls_witness :
  dirname_r_impl (Env := test_env) (c_str "/home/u/.glirc/otr.so") = Some "/home/u/.glirc"
  /\ strlen "/home/u/.glirc" + 9 <= PATH_MAX (Env := test_env)
  /\ exists (us : nat) (err : gcry_error_t) (st' : state),
       start_entrypoint (env := test_env) tt "/home/u/.glirc/otr.so" st0 = Returns us st'
       /\ trace st'
          = [ev_OTRL_INIT; ev_otrl_userstate_create (env := test_env) us;
             ev_otrl_privkey_generate (env := test_env) us "/home/u/.glirc/keyfile"
               "glguy" "elis.local" err].
Proof.
  assert (Hfit : strlen "/home/u/.glirc" + 9 <= PATH_MAX (Env := test_env))
    by (apply Nat.leb_le; reflexivity).
  split; [reflexivity|]. split; [exact Hfit|].
  exact (start_entrypoint_calls (env := test_env) tt "/home/u/.glirc/otr.so"
           "/home/u/.glirc" st0 _ eq_refl Hfit eq_refl).
Defined.

(** C6, as amended, on a start whose key file cannot be written. *)
Lemma start_entrypoint_ignores_key_error_witness :
  dirname_r_impl (Env := test_env) (c_str "/usr/lib/glirc/otr.dylib")
  = Some "/usr/lib/glirc"
  /\ strlen "/usr/lib/glirc" + 9 <= PATH_MAX (Env := test_env)
  /\ exists st' : state,
       start_entrypoint (env := test_env) tt "/usr/lib/glirc/otr.dylib" st0
       = Returns 0 st'
       /\ key_files (the_world st') = key_files w0.
Proof.
  assert (Hfit : strlen "/usr/lib/glirc" + 9 <= PATH_MAX (Env := test_env))
    by (apply Nat.leb_le; reflexivity).
  split; [reflexivity|]. split; [exact Hfit|].
  destruct (start_entrypoint_ignores_key_error (env := test_env) tt
              "/usr/lib/glirc/otr.dylib" "/usr/lib/glirc" st0 _ _ _ 0 GPG_ERR_EACCES
              eq_refl Hfit eq_refl eq_refl eq_refl)
    as (st' & Hrun & _ & Hworld & _).
  exists st'. split; [exact Hrun|]. rewrite Hworld. reflexivity.
Defined.

End OnTheTestDouble.

(** * Further properties of the code *)

(** ** More on C strings *)

Lemma prefix_empty (s : string) : String.prefix EmptyString s = true.
Proof. destruct s; reflexivity. Qed.

Lemma c_str_prefix (s : string) : String.prefix (c_str s) s = true.
Proof.
  induction s as [|c rest IH]; simpl; [reflexivity|].
  destruct (Ascii.eqb c NUL); simpl; [reflexivity|].
  destruct (ascii_dec c c) as [_|Hne]; [exact IH | contradiction].
Qed.

Lemma c_str_no_NUL (s : string) : count_byte NUL (c_str s) = 0.
Proof.
  induction s as [|c rest IH]; simpl; [reflexivity|].
  destruct (Ascii.eqb c NUL) eqn:E; simpl; [reflexivity|].
  rewrite E, IH. reflexivity.
Qed.

Lemma length_c_str_le (s : string) : String.length (c_str s) <= String.length s.
Proof.
  induction s as [|c rest IH]; simpl; [lia|].
  destruct (Ascii.eqb c NUL); simpl; lia.
Qed.

Lemma c_str_fixed_iff (s : string) : c_str s = s <-> count_byte NUL s = 0.
Proof.
  induction s as [|c rest IH]; simpl; [tauto|].
  destruct (Ascii.eqb c NUL) eqn:E; simpl.
  - split; [discriminate | lia].
  - rewrite <- IH. split; [intros H; injection H; auto | intros ->; reflexivity].
Qed.

(** A buffer is its C string followed by nothing or by a NUL byte and the
    rest. *)
Lemma c_str_split (s : string) :
  exists rest : string,
    s = (c_str s ++ rest)%string
    /\ (rest = EmptyString \/ exists tail : string, rest = String NUL tail).
Proof.
  induction s as [|c tl IH]; simpl.
  - exists EmptyString. split; [reflexivity | left; reflexivity].
  - destruct (Ascii.eqb c NUL) eqn:E.
    + apply Ascii.eqb_eq in E. subst c. exists (String NUL tl).
      split; [reflexivity | right; exists tl; reflexivity].
    + destruct IH as (rest & Hs & Hrest). exists rest.
      split; [simpl; rewrite <- Hs; reflexivity | exact Hrest].
Qed.

Lemma map_bytes_no_newline (s : string) :
  count_byte newline s = 0 -> map_bytes newline_to_space s = s.
Proof.
  induction s as [|c rest IH]; simpl; [reflexivity|].
  unfold newline_to_space at 1.
  destruct (Ascii.eqb c newline); simpl; [lia|].
  intros H. rewrite (IH H). reflexivity.
Qed.

Lemma count_byte_c_str_le (b : ascii) (s : string) :
  count_byte b (c_str s) <= count_byte b s.
Proof.
  induction s as [|c rest IH]; simpl; [lia|].
  destruct (Ascii.eqb c NUL); simpl; lia.
Qed.

(** ** What [strncmp] bounded by the length of its second argument accepts *)

Lemma prefix_cons (a b : ascii) (s t : string) :
  String.prefix (String a s) (String b t)
  = if Ascii.eqb a b then String.prefix s t else false.
Proof.
  simpl. destruct (ascii_dec a b) as [->|Hne].
  - rewrite Ascii.eqb_refl. reflexivity.
  - apply Ascii.eqb_neq in Hne. rewrite Hne. reflexivity.
Qed.

Lemma strncmp_cons (s1 rest : string) (c : ascii) :
  strncmp s1 (String c rest) (String.length (String c rest))
  = if negb (Ascii.eqb (deref s1) c)
    then (Z.of_nat (nat_of_ascii (deref s1)) - Z.of_nat (nat_of_ascii c))%Z
    else if Ascii.eqb (deref s1) NUL then 0%Z
    else strncmp (advance s1) rest (String.length rest).
Proof. reflexivity. Qed.

Lemma c_str_of_NUL_first (s1 : string) : deref s1 = NUL -> c_str s1 = EmptyString.
Proof.
  destruct s1 as [|c1 r1]; [reflexivity|]. intros H. simpl in H. subst c1.
  reflexivity.
Qed.

Lemma strncmp_zero_inv (s1 s2 : string) :
  strncmp s1 s2 (String.length s2) = 0%Z ->
  String.prefix s2 s1 = true
  \/ String.prefix (c_str s1 ++ String NUL EmptyString)%string s2 = true.
Proof.
  revert s1. induction s2 as [|c rest IH]; intros s1 H; [left; apply prefix_empty|].
  rewrite strncmp_cons in H.
  destruct (Ascii.eqb (deref s1) c) eqn:E; cbn [negb] in H.
  - apply Ascii.eqb_eq in E. subst c.
    destruct (Ascii.eqb (deref s1) NUL) eqn:N.
    + right. apply Ascii.eqb_eq in N.
      rewrite (c_str_of_NUL_first s1 N), N. cbn [append].
      rewrite prefix_cons, Ascii.eqb_refl. apply prefix_empty.
    + destruct s1 as [|c1 r1]; [discriminate N|].
      cbn [deref advance] in *. cbn [c_str]. rewrite N. cbn [append].
      rewrite !prefix_cons, Ascii.eqb_refl. apply IH. exact H.
  - exfalso. apply Ascii.eqb_neq in E. apply E.
    rewrite <- (ascii_nat_embedding (deref s1)), <- (ascii_nat_embedding c).
    f_equal. lia.
Qed.

Lemma strncmp_past_NUL (s1 s2 : string) :
  String.prefix (c_str s1 ++ String NUL EmptyString)%string s2 = true ->
  strncmp s1 s2 (String.length s2) = 0%Z.
Proof.
  revert s1. induction s2 as [|c rest IH]; intros s1 H; [reflexivity|].
  rewrite strncmp_cons.
  destruct s1 as [|c1 r1].
  - cbn [c_str append] in H. rewrite prefix_cons in H.
    destruct (Ascii.eqb NUL c) eqn:E; [|discriminate].
    cbn [deref]. rewrite E. reflexivity.
  - cbn [c_str] in H. cbn [deref advance].
    destruct (Ascii.eqb c1 NUL) eqn:N.
    + cbn [append] in H. rewrite prefix_cons in H.
      destruct (Ascii.eqb NUL c) eqn:E; [|discriminate].
      apply Ascii.eqb_eq in N. subst c1. rewrite E. reflexivity.
    + cbn [append] in H. rewrite prefix_cons in H.
      destruct (Ascii.eqb c1 c) eqn:E; [|discriminate].
      cbn [negb]. apply IH. exact H.
Qed.

Lemma guard_is_passes_guard (msg : glirc_message) :
  (0 =? strncmp "PRIVMSG" (str (command msg)) (len (command msg)))%Z
    && (params_n msg =? 2)%nat
  = passes_guard msg.
Proof.
  unfold passes_guard, str, len. f_equal.
  destruct (String.prefix (command msg) "PRIVMSG"
            || String.prefix ("PRIVMSG" ++ String NUL EmptyString) (command msg)) eqn:E.
  - apply Z.eqb_eq. symmetry. apply orb_true_iff in E as [E|E].
    + apply strncmp_prefix. exact E.
    + apply strncmp_past_NUL. exact E.
  - apply Z.eqb_neq. intros H. symmetry in H.
    apply strncmp_zero_inv in H. apply orb_false_iff in E as [E1 E2].
    destruct H as [H|H]; [congruence|].
    change (c_str "PRIVMSG") with "PRIVMSG" in H. congruence.
Qed.

(** ** The guard, exactly *)

Section Reach.
Context {env : Env}.

(** X1: [message_entrypoint] hands a message to the receive path of the
    engine exactly when the message has two parameters and its command is a
    prefix of "PRIVMSG" or goes on with a NUL byte after "PRIVMSG"; every
    other message is passed with the state as it was. *)
Theorem message_entrypoint_reaches_engine_iff (G : glirc) (L : OtrlUserState)
    (msg : glirc_message) (st : state) :
  exists (r : process_result) (st' : state) (new : list event),
    message_entrypoint G L msg st = Returns r st'
    /\ trace st' = trace st ++ new
    /\ existsb receive_call new = passes_guard msg
    /\ (passes_guard msg = false -> r = PASS_MESSAGE /\ st' = st).
Proof.
  destruct (passes_guard msg) eqn:Hg; rewrite <- guard_is_passes_guard in Hg.
  - apply andb_true_iff in Hg as [Hcmd Hn].
    apply Z.eqb_eq in Hcmd. apply Nat.eqb_eq in Hn. unfold params_n in Hn.
    destruct (params msg) as [|p0 [|p1 [|p2 rest]]] eqn:Hparams; try discriminate.
    destruct st as [h w t].
    destruct (message_entrypoint_matching G L msg p0 p1 h w t (eq_sym Hcmd) Hparams)
      as (r & w' & k & up & Hrun & _).
    eexists _, _, _. split; [exact Hrun|]. simpl.
    split; [reflexivity|]. split; [reflexivity | discriminate].
  - exists PASS_MESSAGE, st, [].
    split; [apply message_entrypoint_other; exact Hg|].
    split; [symmetry; apply app_nil_r|]. split; [reflexivity | tauto].
Qed.

End Reach.

(** ** Sessions: received messages and typed lines in any order *)

Section Sessions.
Context {env : Env}.

Lemma chat_entrypoint_settles (G : glirc) (L : OtrlUserState) (chat : glirc_chat)
    (h : list cell) (w : world) (t : list event) :
  exists (r : process_result) (k : nat) (w' : world) (t' : list event),
    chat_entrypoint G L chat (@Build_state env h w t)
    = Returns r (@Build_state env (h ++ replicate k Freed) w' t').
Proof.
  destruct (chat_entrypoint_spec G L chat h w t) as (r & w' & k & up & Hrun & _).
  rewrite Hrun. eauto.
Qed.

Lemma process_events_settles (G : glirc) (L : OtrlUserState) (es : list host_event)
    (h : list cell) (w : world) (t : list event) :
  exists (rs : list process_result) (k : nat) (w' : world) (t' : list event),
    process_events G L es (@Build_state env h w t)
    = Returns rs (@Build_state env (h ++ replicate k Freed) w' t')
    /\ length rs = length es.
Proof.
  revert h w t. induction es as [|e rest IH]; intros h w t; simpl.
  - exists [], 0, w, t. simpl. rewrite app_nil_r. split; reflexivity.
  - assert (H1 : exists r k1 w1 t1,
               process_event G L e (@Build_state env h w t)
               = Returns r (@Build_state env (h ++ replicate k1 Freed) w1 t1)).
    { destruct e as [msg|chat]; simpl.
      - apply message_entrypoint_settles.
      - apply chat_entrypoint_settles. }
    destruct H1 as (r & k1 & w1 & t1 & H1).
    destruct (IH (h ++ replicate k1 Freed) w1 t1) as (rs & k2 & w2 & t2 & H2 & Hlen).
    exists (r :: rs), (k1 + k2), w2, t2.
    rewrite (bind_Returns _ _ _ _ _ H1), (bind_Returns _ _ _ _ _ H2).
    rewrite replicate_add, app_assoc. simpl. split; [reflexivity | congruence].
Qed.

(** X2: whatever the engine does and in whatever order messages are
    received and lines typed, both entry points return on every event, one
    result per event, and when the session is over the heap is the heap of
    before followed by released cells: the copies made by [import_string],
    the nick from the host and what the engine handed over are all freed,
    none twice. *)
Theorem session_releases_everything (G : glirc) (L : OtrlUserState)
    (es : list host_event) (st : state) :
  exists (rs : list process_result) (k : nat) (st' : state),
    process_events G L es st = Returns rs st'
    /\ length rs = length es
    /\ heap st' = heap st ++ replicate k Freed
    /\ live (heap st') = live (heap st).
Proof.
  destruct st as [h w t].
  destruct (process_events_settles G L es h w t) as (rs & k & w' & t' & Hrun & Hlen).
  exists rs, k. eexists. split; [exact Hrun|]. simpl.
  split; [exact Hlen|]. split; [reflexivity | apply live_settled].
Qed.

End Sessions.

(** ** Nothing sent breaks a line *)

Section Framing.
Context {env : Env}.

Lemma sil_ret {A} (a : A) : stays_in_line (ret a).
Proof.
  intros st b st' H. injection H as <- <-. exists []. rewrite app_nil_r.
  split; [reflexivity | constructor].
Qed.

Lemma sil_crash {A} (f : fault) : stays_in_line (@crash env A f).
Proof. intros st b st' H. discriminate H. Qed.

Lemma sil_bind {A B} (c : cmd A) (k : A -> cmd B) :
  stays_in_line c -> (forall a, stays_in_line (k a)) -> stays_in_line (bind c k).
Proof.
  intros Hc Hk st b st' H. unfold bind in H.
  destruct (c st) as [a st1|f] eqn:E; [|discriminate].
  destruct (Hc _ _ _ E) as (n1 & T1 & F1).
  destruct (Hk a _ _ _ H) as (n2 & T2 & F2).
  exists (n1 ++ n2). rewrite T2, T1, app_assoc.
  split; [reflexivity | apply Forall_app; split; assumption].
Qed.

Lemma sil_emit (e : event) : in_line e -> stays_in_line (emit e).
Proof.
  intros He st b st' H. inversion H; subst; simpl. exists [e].
  split; [reflexivity | repeat constructor; exact He].
Qed.

(** A command that leaves the trace alone. *)
Lemma sil_silent {A} (c : cmd A) :
  (forall st a st', c st = Returns a st' -> trace st' = trace st) ->
  stays_in_line c.
Proof.
  intros Hc st a st' H. exists []. rewrite app_nil_r.
  split; [exact (Hc _ _ _ H) | constructor].
Qed.

Lemma sil_alloc (b : block) : stays_in_line (alloc b).
Proof. apply sil_silent. intros st a st' H. inversion H; subst; reflexivity. Qed.

Lemma sil_load (p : ptr) : stays_in_line (load p).
Proof.
  apply sil_silent. intros st a st' H. unfold load in H.
  destruct p as [l|]; [|discriminate].
  destruct (heap st !! l) as [[[buf|chain]|]|]; try discriminate.
  inversion H; subst; reflexivity.
Qed.

Lemma sil_release (for_chars : bool) (l : loc) : stays_in_line (release for_chars l).
Proof.
  apply sil_silent. intros st a st' H. unfold release in H.
  destruct (heap st !! l) as [[b|]|]; try discriminate.
  destruct (Bool.eqb _ _); [|discriminate].
  inversion H; subst; reflexivity.
Qed.

Lemma sil_free (p : ptr) : stays_in_line (free p).
Proof. destruct p as [l|]; [apply sil_release | apply sil_ret]. Qed.

Lemma sil_get_world : stays_in_line get_world.
Proof. apply sil_silent. intros st a st' H. inversion H; subst; reflexivity. Qed.

Lemma sil_put_world (w : world) : stays_in_line (put_world w).
Proof. apply sil_silent. intros st a st' H. inversion H; subst; reflexivity. Qed.

(** The callbacks of the table. *)
Lemma sil_answer {A} (c : upcall A) (G : glirc) : stays_in_line (answer ops G c).
Proof.
  destruct c; simpl.
  - apply sil_ret.
  - apply sil_emit. reflexivity.
  - apply sil_ret.
  - intros [h w t] a st' H.
    unfold bind at 1, alloc in H. simpl in H.
    erewrite bind_Returns in H; cycle 1.
    { apply op_inject_spec. simpl. apply list_lookup_middle. reflexivity. }
    simpl in H. rewrite (release_at h [Freed] (Chars message)) in H; cycle 1.
    { reflexivity. }
    { rewrite <- app_assoc. reflexivity. }
    inversion H; subst; simpl. eexists [_]. split; [reflexivity|].
    repeat constructor. eexists _, _. split; [reflexivity|].
    apply no_newline_scrubbed.
  - apply sil_ret.
  - destruct message as [text|]; [apply sil_emit; reflexivity | apply sil_ret].
Qed.

Lemma sil_run_engine {R} (e : engine R) (G : glirc) : stays_in_line (run_engine ops G e).
Proof.
  induction e as [r | A c k IH]; simpl.
  - apply sil_ret.
  - apply sil_bind; [apply sil_answer | exact IH].
Qed.

End Framing.

Ltac sil :=
  repeat match goal with
    | |- stays_in_line (ret _) => apply sil_ret
    | |- stays_in_line (crash _) => apply sil_crash
    | |- stays_in_line (emit _) => apply sil_emit; exact I || reflexivity
    | |- stays_in_line (alloc _) => apply sil_alloc
    | |- stays_in_line (load _) => apply sil_load
    | |- stays_in_line (release _ _) => apply sil_release
    | |- stays_in_line (free _) => apply sil_free
    | |- stays_in_line get_world => apply sil_get_world
    | |- stays_in_line (put_world _) => apply sil_put_world
    | |- stays_in_line (run_engine ops _ _) => apply sil_run_engine
    | |- stays_in_line (bind _ _) => apply sil_bind; [ | intros ]
    | |- stays_in_line (match ?x with _ => _ end) => destruct x
    end.

Section FramingOfTheEntryPoints.
Context {env : Env}.

Lemma sil_message_entrypoint (G : glirc) (L : OtrlUserState) (msg : glirc_message) :
  stays_in_line (message_entrypoint G L msg).
Proof.
  unfold message_entrypoint, import_string, param, otrl_message_receiving,
    glirc_inject_chat, otrl_tlv_free, otrl_message_free.
  sil.
Qed.

Lemma sil_chat_entrypoint (G : glirc) (L : OtrlUserState) (chat : glirc_chat) :
  stays_in_line (chat_entrypoint G L chat).
Proof.
  unfold chat_entrypoint, import_string, glirc_my_nick, otrl_message_sending,
    glirc_print, otrl_message_free.
  sil.
Qed.

Lemma sil_process_events (G : glirc) (L : OtrlUserState) (es : list host_event) :
  stays_in_line (process_events G L es).
Proof.
  induction es as [|e rest IH]; simpl; [apply sil_ret|].
  apply sil_bind.
  - destruct e; [apply sil_message_entrypoint | apply sil_chat_entrypoint].
  - intros r. apply sil_bind; [exact IH | intros rs; apply sil_ret].
Qed.

(** X3: whatever the engine is and whatever it injects, and whatever is
    received or typed, every message the extension hands to the host's
    outbound primitive during a session is a "PRIVMSG" with two parameters
    whose text holds no newline, and every notification it shows is of the
    error kind. *)
Theorem session_stays_in_line (G : glirc) (L : OtrlUserState) (es : list host_event)
    (st : state) :
  exists (rs : list process_result) (st' : state) (new : list event),
    process_events G L es st = Returns rs st'
    /\ trace st' = trace st ++ new
    /\ Forall in_line new.
Proof.
  destruct st as [h w t].
  destruct (process_events_settles G L es h w t) as (rs & k & w' & t' & Hrun & _).
  destruct (sil_process_events G L es _ rs _ Hrun) as (new & Htrace & Hnew).
  eexists rs, _, new. split; [exact Hrun|]. split; [exact Htrace | exact Hnew].
Qed.

End FramingOfTheEntryPoints.

(** ** The remaining callbacks and [import_string] *)

Section Callbacks.
Context {env : Env}.

(** X4: the event callback of the table, [op_msg_event], shows the message
    of the engine as one notification of the error kind, its text being the
    C string of the message, and does nothing at all when the engine gives
    no message; the kind of event, the context and the error code play no
    part, and neither heap nor engine is touched. *)
Theorem op_msg_event_shows_message (G : glirc) (msg_event : OtrlMessageEvent)
    (context : ConnContext) (message : option string) (err : gcry_error_t)
    (st : state) :
  handle_msg_event ops G msg_event context message err st
  = Returns tt
      {| heap := heap st;
         the_world := the_world st;
         trace := trace st ++ match message with
                              | Some text => [ev_glirc_print ERROR_MESSAGE (c_str text)]
                              | None => []
                              end |}.
Proof.
  destruct st as [h w t]. destruct message as [text|]; simpl.
  - unfold op_msg_event, glirc_print, emit. simpl.
    rewrite mk_glirc_string_strlen. reflexivity.
  - rewrite app_nil_r. reflexivity.
Qed.

(** X5: [import_string] makes a fresh block that holds the bytes of the
    counted string up to its first NUL byte: the string is the copy followed
    by nothing or by a NUL byte and the rest, and the copy is free of NUL.
    So the copy is a prefix of the string, no longer than [len], and the
    whole string exactly when the string holds no NUL byte.  Nothing else
    changes. *)
Theorem import_string_copies_up_to_NUL (s : glirc_string) (st : state) :
  exists copy rest : string,
    import_string s st
    = Returns (Some (length (heap st)))
        {| heap := heap st ++ [Live (Chars copy)];
           the_world := the_world st;
           trace := trace st |}
    /\ str s = (copy ++ rest)%string
    /\ count_byte NUL copy = 0
    /\ (rest = EmptyString \/ exists tail : string, rest = String NUL tail)
    /\ String.prefix copy (str s) = true
    /\ String.length copy <= len s
    /\ (copy = str s <-> count_byte NUL (str s) = 0).
Proof.
  destruct (c_str_split s) as (rest & Hs & Hrest).
  exists (c_str s), rest. split.
  - unfold import_string, bind, alloc, ret. rewrite strndup_len. reflexivity.
  - unfold str, len. split; [exact Hs|]. split; [apply c_str_no_NUL|].
    split; [exact Hrest|]. split; [apply c_str_prefix|].
    split; [apply length_c_str_le | apply c_str_fixed_iff].
Qed.

(** X9: a text without a newline goes out through [op_inject] byte for
    byte: what is sent is the C string at [message] itself. *)
Theorem op_inject_keeps_single_lines (G : glirc) (accountname protocol recipient : string)
    (message : loc) (buf : string) (st : state) :
  heap st !! message = Some (Live (Chars buf)) ->
  count_byte newline (c_str buf) = 0 ->
  exists st' : state,
    op_inject G accountname protocol recipient (Some message) st = Returns tt st'
    /\ trace st'
       = trace st
         ++ [ev_glirc_send_message
               {| network := c_str protocol;
                  prefix_nick := "";
                  command := "PRIVMSG";
                  params := [c_str recipient; c_str buf] |}].
Proof.
  intros Hbuf Hline. eexists.
  split; [apply (op_inject_spec G accountname protocol recipient message buf st Hbuf)|].
  simpl. rewrite (map_bytes_no_newline _ Hline). reflexivity.
Qed.

End Callbacks.

(** ** The edges of [start_entrypoint], and [stop_entrypoint] *)

Section StartAndStop.
Context {env : Env}.

(** X6: the result of [dirname_r] is not looked at.  When it fails and
    leaves the buffer alone, the buffer is still all zero, and the key is
    generated into "/keyfile", in the root directory. *)
Theorem start_entrypoint_without_directory (G : glirc) (path : string) (st : state)
    (w1 : world) :
  dirname_r_impl (c_str path) = None ->
  9 <= PATH_MAX ->
  OTRL_INIT_impl (the_world st) = Some w1 ->
  exists (us : OtrlUserState) (err : gcry_error_t) (st' : state),
    start_entrypoint G path st = Returns us st'
    /\ trace st'
       = trace st
         ++ [ev_OTRL_INIT;
             ev_otrl_userstate_create us;
             ev_otrl_privkey_generate us "/keyfile" "glguy" "elis.local" err].
Proof.
  intros Hdir Hfit Hinit. destruct st as [h w t]. simpl in Hinit.
  unfold start_entrypoint. rewrite Hdir.
  unfold strcat_into.
  replace (strlen "" + strlen "/keyfile" + 1 <=? PATH_MAX)%nat with true
    by (symmetry; apply Nat.leb_le; simpl; lia).
  unfold strcat. simpl c_str. simpl append.
  cbv beta iota zeta delta
    [bind ret OTRL_INIT otrl_userstate_create otrl_privkey_generate emit get_world
     put_world heap the_world trace].
  rewrite Hinit.
  change (c_str "/keyfile") with "/keyfile".
  change (c_str "glguy") with "glguy".
  change (c_str "elis.local") with "elis.local".
  destruct (otrl_userstate_create_impl w1) as [us w2].
  destruct (otrl_privkey_generate_impl us "/keyfile" "glguy" "elis.local" w2)
    as [err w3].
  eexists _, _, _. split; [reflexivity|]. simpl.
  rewrite <- !app_assoc. reflexivity.
Qed.


(** X8: a start followed by a stop on the handle the start returned: the
    engine is initialised, a user state is created, a key is generated for
    it and the same user state is freed; these are all the calls, and the
    heap is as it was. *)
Theorem start_then_stop_frees_the_user_state (G : glirc) (path dir : string)
    (st : state) (w1 : world) :
  dirname_r_impl (c_str path) = Some dir ->
  strlen dir + 9 <= PATH_MAX ->
  OTRL_INIT_impl (the_world st) = Some w1 ->
  exists (us : OtrlUserState) (err : gcry_error_t) (st' : state),
    start_then_stop G path st = Returns tt st'
    /\ trace st'
       = trace st
         ++ [ev_OTRL_INIT;
             ev_otrl_userstate_create us;
             ev_otrl_privkey_generate us (c_str dir ++ "/keyfile")%string
               "glguy" "elis.local" err;
             ev_otrl_userstate_free us]
    /\ heap st' = heap st.
Proof.
  intros Hdir Hfit Hinit. destruct st as [h w t]. simpl in Hinit.
  unfold start_then_stop.
  rewrite (bind_Returns _ _ _ _ _ (start_entrypoint_spec G path dir h w w1 t Hdir Hfit Hinit)).
  eexists _, _, _. split; [reflexivity|]. simpl.
  split; [rewrite <- !app_assoc; reflexivity | reflexivity].
Qed.

End StartAndStop.

(** ** The further properties on the test double *)

Section MoreOnTheTestDouble.
Import TestDouble.

(** X9 on a fragment of one line. *)
Lemma op_inject_keeps_single_lines_witness :
  heap st_line !! 0 = Some (Live (Chars "?OTR:AAMD,1,2,abcd,"))
  /\ count_byte newline (c_str "?OTR:AAMD,1,2,abcd,") = 0
  /\ exists st' : state,
       op_inject (env := test_env) tt "glguy" "libera" "bob" (Some 0) st_line
       = Returns tt st'
       /\ trace st'
          = [ev_glirc_send_message (env := test_env)
               {| network := "libera"; prefix_nick := ""; command := "PRIVMSG";
                  params := ["bob"; "?OTR:AAMD,1,2,abcd,"] |}].
Proof.
  split; [reflexivity|]. split; [reflexivity|].
  exact (op_inject_keeps_single_lines (env := test_env) tt "glguy" "libera" "bob"
           0 "?OTR:AAMD,1,2,abcd," st_line eq_refl eq_refl).
Defined.

(** X6 on an extension installed in a directory of 1100 bytes, for which
    [dirname_r] fails. *)
Lemma start_entrypoint_without_directory_witness :
  dirname_r_impl (Env := test_env) (c_str (installed_in 1100)) = None
  /\ exists (us : nat) (err : gcry_error_t) (st' : state),
       start_entrypoint (env := test_env) tt (installed_in 1100) st0 = Returns us st'
       /\ trace st'
          = [ev_OTRL_INIT; ev_otrl_userstate_create (env := test_env) us;
             ev_otrl_privkey_generate (env := test_env) us "/keyfile" "glguy"
               "elis.local" err].
Proof.
  assert (Hdir : dirname_r_impl (Env := test_env) (c_str (installed_in 1100)) = None)
    by (vm_compute; reflexivity).
  assert (Hfit : 9 <= PATH_MAX (Env := test_env)) by (apply Nat.leb_le; reflexivity).
  split; [exact Hdir|].
  exact (start_entrypoint_without_directory (env := test_env) tt (installed_in 1100)
           st0 _ Hdir Hfit eq_refl).
Defined.


(** X8 on a start and stop next to the key file of the test double. *)
Lemma start_then_stop_frees_the_user_state_witness :
  dirname_r_impl (Env := test_env) (c_str "/home/u/.glirc/otr.so") = Some "/home/u/.glirc"
  /\ exists (us : nat) (err : gcry_error_t) (st' : state),
       start_then_stop (env := test_env) tt "/home/u/.glirc/otr.so" st0 = Returns tt st'
       /\ trace st'
          = [ev_OTRL_INIT; ev_otrl_userstate_create (env := test_env) us;
             ev_otrl_privkey_generate (env := test_env) us "/home/u/.glirc/keyfile"
               "glguy" "elis.local" err;
             ev_otrl_userstate_free (env := test_env) us]
       /\ heap st' = heap st0.
Proof.
  assert (Hfit : strlen "/home/u/.glirc" + 9 <= PATH_MAX (Env := test_env))
    by (apply Nat.leb_le; reflexivity).
  split; [reflexivity|].
  exact (start_then_stop_frees_the_user_state (env := test_env) tt
           "/home/u/.glirc/otr.so" "/home/u/.glirc" st0 _ eq_refl Hfit eq_refl).
Defined.

End MoreOnTheTestDouble.
